(** * EvalExtendedWrapper: the managed wrapper of the native extended
      evaluation interface

    A shallow embedding of
    [Source/Extensibility/EvalWrapper/EvalExtendedWrapper.cpp].

    The wrapper is C++/CLI glue between a managed caller and the native
    engine behind [IEvaluateModelExtended<ElemType>].  The embedding keeps
    the three things the code manipulates:

    - the native handle [m_eval] of one wrapper instance (an owning pointer,
      modelled as [option Engine]: [None] is [nullptr]);
    - the managed heap of [ValueBuffer] objects (a list indexed by
      reference; the collector never frees anything a caller can still name,
      so the heap only grows);
    - the log of calls that crossed into the native library.

    Managed methods are computations in a state-and-outcome monad [M]; a
    method ends by returning, by throwing a managed exception, by letting a
    native C++ exception unwind out of it, or by calling through a null
    function pointer.

    Conventions.  Managed and native strings are both [string], and
    [marshal_as] between them is the identity; character encodings are not
    modelled.  Lists and strings handed in by the caller are values, so the
    manifold ways of passing [nullptr] for them are not represented; a
    reference to a [ValueBuffer] can be null.  Element values ([float] or
    [double]) are an abstract type [ElemType]. *)

From Stdlib Require Import ZArith String List Lia.
From stdpp Require Import base list strings pretty.

(** ** Machine integers *)

(** The value of a managed [int] (32 bits, two's complement) holding the
    mathematical integer [z]: arithmetic on [int] wraps around. *)
Definition int_of (z : Z) : Z := ((z + 2 ^ 31) `mod` 2 ^ 32 - 2 ^ 31)%Z.

(** [s.c_str()] read back as a zero-terminated string: everything from the
    first NUL character on is lost. *)
Fixpoint c_str (s : string) : string :=
  match s with
  | EmptyString => EmptyString
  | String c rest =>
      if Ascii.eqb c Ascii.zero then EmptyString else String c (c_str rest)
  end.

(** ** The native side: namespace [Microsoft::MSR::CNTK] *)

Module Native.

(** Modelled from the spec: the class template [ExceptionWithCallStack<E>]
    is declared in [ExceptionWithCallStack.h], which is not part of the
    sources at hand.  Section 4.1.1 of the specification lists the native
    failure categories: a runtime error, a logic error and an invalid
    argument, each with call-stack information, an allocation failure, and
    anything else.  [E] ranges over the three standard classes the engine
    instantiates the template with. *)
Inductive call_stack_base : Type :=
| runtime_error
| logic_error
| invalid_argument.

(** A C++ exception object derived from [std::exception], by dynamic type
    ([typeid]). *)
Inductive exception : Type :=
| ExceptionWithCallStack (E : call_stack_base) (msg callstack : string)
| bad_alloc (msg : string)
| other_exception (type_name : string) (msg : string).

Definition what (ex : exception) : string :=
  match ex with
  | ExceptionWithCallStack _ msg _ => msg
  | bad_alloc msg => msg
  | other_exception _ msg => msg
  end.

(** The call-stack string, for the dynamic types that have the member
    [CallStack()]. *)
Definition CallStack (ex : exception) : option string :=
  match ex with
  | ExceptionWithCallStack _ _ callstack => Some callstack
  | bad_alloc _ => None
  | other_exception _ _ => None
  end.

(** How a call into the native library ends. *)
Inductive result (A : Type) : Type :=
| returns (a : A)
| throws (ex : exception).
Arguments returns {A} a.
Arguments throws {A} ex.

(** Modelled from the spec: [struct VariableLayout] of [Eval.h], which is
    not part of the sources at hand.  Section 3 of the specification gives
    its fields: name, element data type, storage kind, flattened element
    count.  The two enumerations are kept as the integers the wrapper's
    [switch ((int) ...)] statements inspect; [m_numElements] is a
    [size_t]. *)
Record VariableLayout : Type := {
  m_name : string;
  m_dataType : Z;
  m_storageType : Z;
  m_numElements : Z
}.

Definition VariableSchema : Type := list VariableLayout.

(** [VectorRef<T>]: a pointer into memory owned by somebody else, with a
    size and a capacity.  [data] is the memory the pointer designates. *)
Record VectorRef (T : Type) : Type := {
  data : list T;
  size : Z;
  capacity : Z
}.
Arguments data {T} _.
Arguments size {T} _.
Arguments capacity {T} _.

Definition InitFrom {T : Type} (p : list T) (size capacity : Z) : VectorRef T :=
  {| data := p; size := size; capacity := capacity |}.

(** [ValueBuffer<ElemType, VectorRef>] *)
Record ValueBuffer (ElemType : Type) : Type := {
  m_buffer : VectorRef ElemType;
  m_indices : VectorRef Z;
  m_colIndices : VectorRef Z
}.
Arguments m_buffer {ElemType} _.
Arguments m_indices {ElemType} _.
Arguments m_colIndices {ElemType} _.

Definition ValueRefs (ElemType : Type) : Type := list (ValueBuffer ElemType).

(** A store through one of the pointers handed to [ForwardPass]: which
    list, which entry of the list, which of the three arrays, which
    element. *)
Inductive Side : Type := input | output.

Inductive Write (ElemType : Type) : Type :=
| write_buffer (side : Side) (k i : nat) (v : ElemType)
| write_indices (side : Side) (k i : nat) (v : Z)
| write_colIndices (side : Side) (k i : nat) (v : Z).
Arguments write_buffer {ElemType} side k i v.
Arguments write_indices {ElemType} side k i v.
Arguments write_colIndices {ElemType} side k i v.

(** The interface [IEvaluateModelExtended<ElemType>] as the wrapper
    consumes it.  [Engine] is the state behind the opaque pointer; every
    method may change it and may throw.  [ForwardPass] also reports the
    stores it performed through the buffers it was given.  [Destroy]
    releases the object; it has no result and is taken not to throw, so
    it needs no entry here: the wrapper's call of it is recorded in the
    log of native calls. *)
Class IEvaluateModelExtended (ElemType Engine : Type) : Type := {
  CreateNetwork : string -> Engine -> Engine * result unit;
  GetInputSchema : Engine -> Engine * result VariableSchema;
  GetOutputSchema : Engine -> Engine * result VariableSchema;
  StartForwardEvaluation : list string -> Engine -> Engine * result unit;
  ForwardPass : ValueRefs ElemType -> ValueRefs ElemType -> Engine ->
                Engine * list (Write ElemType) * result unit
}.

End Native.

(** ** Managed exceptions *)

(** Modelled from the spec: the managed exception classes of
    [CNTKException.h], which is not part of the sources at hand (section
    4.1.1: runtime, logic, invalid-argument, out-of-memory and generic engine
    failure), together with the exceptions of the runtime itself that the
    code can raise. *)
Inductive ExceptionClass : Type :=
| CNTKException
| CNTKRuntimeException
| CNTKLogicErrorException
| CNTKInvalidArgumentException
| CNTKBadAllocException
| ObjectDisposedException
| IndexOutOfRangeException
| ArgumentOutOfRangeException
| OverflowException
| NullReferenceException.

(** A managed exception object: its class, the string handed to the
    constructor (for the CNTK classes, the message) and the native call
    stack, present when the two-argument constructor was used. *)
Record Exception : Type := gcnew {
  class_of : ExceptionClass;
  text : string;
  NativeCallStack : option string
}.

(** ** Managed data *)

Module DataType.
Inductive t : Type := Float32 | Float64.
Definition to_int (d : t) : Z :=
  match d with Float32 => 0 | Float64 => 1 end.
End DataType.

Module StorageType.
Inductive t : Type := Undetermined | Dense | Sparse.
Definition to_int (s : t) : Z :=
  match s with Undetermined => 0 | Dense => 1 | Sparse => 2 end.
End StorageType.

(** [ref struct VariableLayout] *)
Record VariableLayout : Type := {
  m_name : string;
  m_dataType : DataType.t;
  m_storageType : StorageType.t;
  m_numElements : Z
}.

(** The fields of a freshly allocated [VariableLayout]: the runtime zeroes
    them. *)
Definition new_VariableLayout : VariableLayout :=
  {| m_name := EmptyString;
     m_dataType := DataType.Float32;
     m_storageType := StorageType.Undetermined;
     m_numElements := 0 |}.

(** [ref class VariableSchema : List<VariableLayout^>] *)
Definition VariableSchema : Type := list VariableLayout.

(** [ref class ValueBuffer<ElemType>] *)
Record ValueBuffer (ElemType : Type) : Type := {
  m_size : Z;
  m_buffer : list ElemType;
  m_indices : list Z;
  m_colIndices : list Z
}.
Arguments m_size {ElemType} _.
Arguments m_buffer {ElemType} _.
Arguments m_indices {ElemType} _.
Arguments m_colIndices {ElemType} _.

(** A [ValueBuffer<ElemType>^]: a position in the managed heap.  A
    reference that designates no object stands for [nullptr]. *)
Abbreviation ref := nat.

(** ** Calls that cross into the native library *)

Inductive NativeCall (ElemType : Type) : Type :=
| call_GetEvalProc (funcName : string)
| call_CreateNetwork (networkDescription : string)
| call_GetInputSchema
| call_GetOutputSchema
| call_StartForwardEvaluation (outputNodeNames : list string)
| call_ForwardPass (stdInputs stdOutputs : Native.ValueRefs ElemType)
| call_Destroy.
Arguments call_GetEvalProc {ElemType} funcName.
Arguments call_CreateNetwork {ElemType} networkDescription.
Arguments call_GetInputSchema {ElemType}.
Arguments call_GetOutputSchema {ElemType}.
Arguments call_StartForwardEvaluation {ElemType} outputNodeNames.
Arguments call_ForwardPass {ElemType} stdInputs stdOutputs.
Arguments call_Destroy {ElemType}.

(** ** How a managed method ends *)

(** [Returns]: the method returns.  [Throws]: a managed exception leaves
    the method.  [NativeThrow]: a C++ exception unwinds out of the method,
    not translated.  [NullCall]: the method called through a null function
    pointer. *)
Inductive Outcome (A : Type) : Type :=
| Returns (a : A)
| Throws (e : Exception)
| NativeThrow (ex : Native.exception)
| NullCall.
Arguments Returns {A} a.
Arguments Throws {A} e.
Arguments NativeThrow {A} ex.
Arguments NullCall {A}.

Definition outcome_of {A : Type} (r : Native.result A) : Outcome A :=
  match r with
  | Native.returns a => Returns a
  | Native.throws ex => NativeThrow ex
  end.

(** ** The state: one wrapper instance, the managed heap, the call log *)

Record State (ElemType Engine : Type) : Type := {
  m_eval : option Engine;
  heap : list (ValueBuffer ElemType);
  native_calls : list (NativeCall ElemType)
}.
Arguments m_eval {ElemType Engine} _.
Arguments heap {ElemType Engine} _.
Arguments native_calls {ElemType Engine} _.

Declare Scope managed_scope.
Delimit Scope managed_scope with managed.

Section Wrapper.

Context {ElemType : Type} (zero : ElemType).
Context {Engine : Type} `{!Native.IEvaluateModelExtended ElemType Engine}.

Local Abbreviation State := (State ElemType Engine).

(** *** The monad of managed code *)

Definition M (A : Type) : Type := State -> Outcome A * State.

Definition ret {A : Type} (a : A) : M A := fun s => (Returns a, s).

Definition bind {A B : Type} (m : M A) (k : A -> M B) : M B :=
  fun s =>
    match m s with
    | (Returns a, s') => k a s'
    | (Throws e, s') => (Throws e, s')
    | (NativeThrow ex, s') => (NativeThrow ex, s')
    | (NullCall, s') => (NullCall, s')
    end.

Local Notation "x <- m ;; k" := (bind m (fun x => k))
  (at level 100, m at next level, right associativity) : managed_scope.
Local Open Scope managed_scope.

Definition throw {A : Type} (e : Exception) : M A := fun s => (Throws e, s).

Definition get : M State := fun s => (Returns s, s).

(** [try { m } catch (const exception& ex) { handler ex }] *)
Definition try_catch {A : Type} (m : M A) (handler : Native.exception -> M A) : M A :=
  fun s =>
    match m s with
    | (NativeThrow ex, s') => handler ex s'
    | r => r
    end.

(** [try { m } catch (Exception^ e) { handler e }] *)
Definition try_catch_managed {A : Type} (m : M A) (handler : Exception -> M A) : M A :=
  fun s =>
    match m s with
    | (Throws e, s') => handler e s'
    | r => r
    end.

(** [for each (auto item in items) { body }], collecting what the body
    yields. *)
Fixpoint for_each {A B : Type} (items : list A) (body : A -> M B) : M (list B) :=
  match items with
  | [] => ret []
  | item :: rest =>
      b <- body item ;;
      bs <- for_each rest body ;;
      ret (b :: bs)
  end.

(** [l[i]] on a [List<T>] *)
Definition item {A : Type} (l : list A) (i : nat) : M A :=
  match l !! i with
  | Some a => ret a
  | None => throw (gcnew ArgumentOutOfRangeException "" None)
  end.

(** [gcnew array<T>(size)]: zero-filled, and a negative size is refused *)
Definition gcnew_array {A : Type} (dflt : A) (size : Z) : M (list A) :=
  if (size <? 0)%Z then throw (gcnew OverflowException "" None)
  else ret (replicate (Z.to_nat size) dflt).

(** Placing a new object in the managed heap. *)
Definition alloc (vb : ValueBuffer ElemType) : M ref :=
  fun s =>
    (Returns (length (heap s)),
     {| m_eval := m_eval s;
        heap := heap s ++ [vb];
        native_calls := native_calls s |}).

(** Following a reference. *)
Definition deref (r : ref) : M (ValueBuffer ElemType) :=
  fun s =>
    match heap s !! r with
    | Some vb => (Returns vb, s)
    | None => (Throws (gcnew NullReferenceException "" None), s)
    end.

(** *** [ValueBuffer::ValueBuffer(int size)] *)
Definition new_ValueBuffer (size : Z) : M ref :=
  buffer <- gcnew_array zero size ;;
  indices <- gcnew_array 0%Z size ;;
  colIndices <- gcnew_array 0%Z size ;;
  alloc {| m_size := size;
           m_buffer := buffer;
           m_indices := indices;
           m_colIndices := colIndices |}.

(** *** [VariableSchema::CreateBuffers] *)

(** [CreateBuffers(List<int>^ maxLengths)] *)
Definition CreateBuffers (this : VariableSchema) (maxLengths : list Z) : M (list ref) :=
  if decide (length maxLengths ≠ length this) then
    throw (gcnew CNTKRuntimeException "Expected max lengths for all variables."
             (Some EmptyString))
  else
    for_each (seq 0 (length this)) (fun i =>
      layout <- item this i ;;
      maxLength <- item maxLengths i ;;
      new_ValueBuffer (int_of (m_numElements layout * maxLength))).

(** [CreateBuffers()]: minimum size buffers based on the schema *)
Definition CreateBuffers_min (this : VariableSchema) : M (list ref) :=
  for_each (seq 0 (length this)) (fun i =>
    layout <- item this i ;;
    new_ValueBuffer (m_numElements layout)).

(** *** The private converters of [IEvaluateModelExtendedManaged] *)

(** [GetCustomException]: the managed exception for a native one.  The
    cascade of [typeid] comparisons and [dynamic_cast]s is the match on
    the dynamic type. *)
Definition GetCustomException (ex : Native.exception) : Exception :=
  match ex with
  | Native.ExceptionWithCallStack Native.runtime_error _ callstack =>
      gcnew CNTKRuntimeException (Native.what ex) (Some callstack)
  | Native.ExceptionWithCallStack Native.logic_error _ callstack =>
      gcnew CNTKLogicErrorException (Native.what ex) (Some callstack)
  | Native.ExceptionWithCallStack Native.invalid_argument _ callstack =>
      gcnew CNTKInvalidArgumentException (Native.what ex) (Some callstack)
  | Native.bad_alloc _ =>
      gcnew CNTKBadAllocException (Native.what ex) None
  | Native.other_exception _ _ =>
      gcnew CNTKException (Native.what ex) None
  end.

Definition GetDataType (dataType : Z) : M DataType.t :=
  if (dataType =? DataType.to_int DataType.Float32)%Z then ret DataType.Float32
  else if (dataType =? DataType.to_int DataType.Float64)%Z then ret DataType.Float64
  else throw (gcnew CNTKRuntimeException
                ("Cannot convert native DataType with value: " +:+ pretty dataType +:+
                 " to corresponding managed DataType.")
                (Some EmptyString)).

Definition GetStorageType (storageType : Z) : M StorageType.t :=
  if (storageType =? StorageType.to_int StorageType.Dense)%Z then ret StorageType.Dense
  else if (storageType =? StorageType.to_int StorageType.Sparse)%Z then ret StorageType.Sparse
  else if (storageType =? StorageType.to_int StorageType.Undetermined)%Z then
    ret StorageType.Undetermined
  else throw (gcnew CNTKRuntimeException
                ("Cannot convert native StorageType with value: " +:+ pretty storageType +:+
                 " to corresponding managed StorageType.")
                (Some EmptyString)).


(** *** Calls through the native handle *)

(** [m_eval->f(...)]: the engine moves on, the call is logged, and a C++
    exception thrown by the engine starts to unwind. *)
Definition invoke {A : Type} (eval : Engine) (c : NativeCall ElemType)
    (f : Engine -> Engine * Native.result A) : M A :=
  fun s =>
    let '(eval', r) := f eval in
    (outcome_of r,
     {| m_eval := Some eval';
        heap := heap s;
        native_calls := native_calls s ++ [c] |}).

(** *** The constructor [IEvaluateModelExtendedManaged(String^ funcName)] *)

(** The operating system's loader.  A [GetEvalProc<ElemType>] is known by
    what calling it does: it stores a new engine through the pointer it is
    given, or throws. *)
Context {HMODULE : Type}.
Variable LoadLibrary : string -> option HMODULE.
Variable GetProcAddress : HMODULE -> string -> option (Native.result Engine).

Definition dllname : string := "evaldll.dll".

(** Calling [getEvalProc(p_eval)], where [getEvalProc] is whatever
    [GetProcAddress] gave back, cast to a function pointer. *)
Definition call_getEvalProc (funcName : string)
    (getEvalProc : option (Native.result Engine)) : M unit :=
  fun s =>
    match getEvalProc with
    | None => (NullCall, s)
    | Some (Native.returns eval) =>
        (Returns tt,
         {| m_eval := Some eval;
            heap := heap s;
            native_calls := native_calls s ++ [call_GetEvalProc funcName] |})
    | Some (Native.throws ex) =>
        (NativeThrow ex,
         {| m_eval := m_eval s;
            heap := heap s;
            native_calls := native_calls s ++ [call_GetEvalProc funcName] |})
    end.

Definition IEvaluateModelExtendedManaged (funcName : string) : M unit :=
  match LoadLibrary dllname with
  | None => throw (gcnew CNTKException ("Cannot find library: " +:+ dllname) None)
  | Some hModule =>
      try_catch
        (let procAddress := GetProcAddress hModule funcName in
         call_getEvalProc funcName procAddress)
        (fun ex => throw (gcnew CNTKException (Native.what ex) None))
  end.

Definition IEvaluateModelExtendedManagedF : M unit :=
  IEvaluateModelExtendedManaged "GetEvalExtendedF".

Definition IEvaluateModelExtendedManagedD : M unit :=
  IEvaluateModelExtendedManaged "GetEvalExtendedD".

(** The state a constructor starts from: the fields of the new object are
    zeroed. *)
Definition fresh_instance (h : list (ValueBuffer ElemType))
    (log : list (NativeCall ElemType)) : State :=
  {| m_eval := None; heap := h; native_calls := log |}.

(** *** The methods *)

Definition disposed : Exception :=
  gcnew ObjectDisposedException "Object has been disposed." None.

Definition CreateNetwork (networkDescription : string) : M unit :=
  this <- get ;;
  match m_eval this with
  | None => throw disposed
  | Some eval =>
      let stdNetworkDescription := networkDescription in
      try_catch
        (invoke eval (call_CreateNetwork stdNetworkDescription)
           (Native.CreateNetwork stdNetworkDescription))
        (fun ex => throw (GetCustomException ex))
  end.

(** The body of the loop of [GetOutputSchema] and [GetInputSchema]: three
    fields of the new layout are assigned. *)
Definition convert_layout (lay : Native.VariableLayout) : M VariableLayout :=
  let layout := new_VariableLayout in
  dataType <- GetDataType (Native.m_dataType lay) ;;
  ret {| m_name := c_str (Native.m_name lay);
         m_dataType := dataType;
         m_storageType := m_storageType layout;
         m_numElements := int_of (Native.m_numElements lay) |}.

Definition GetOutputSchema : M VariableSchema :=
  this <- get ;;
  match m_eval this with
  | None => throw disposed
  | Some eval =>
      outputLayout <- invoke eval call_GetOutputSchema Native.GetOutputSchema ;;
      for_each outputLayout convert_layout
  end.

Definition StartForwardEvaluation (outputs : list string) : M unit :=
  this <- get ;;
  match m_eval this with
  | None => throw disposed
  | Some eval =>
      outputNodeNames <- for_each outputs (fun output => ret output) ;;
      invoke eval (call_StartForwardEvaluation outputNodeNames)
        (Native.StartForwardEvaluation outputNodeNames)
  end.

Definition GetInputSchema : M VariableSchema :=
  this <- get ;;
  match m_eval this with
  | None => throw disposed
  | Some eval =>
      inputLayout <- invoke eval call_GetInputSchema Native.GetInputSchema ;;
      for_each inputLayout convert_layout
  end.

(** [&(arr[0])]: the element must exist *)
Definition address_of_first {A : Type} (arr : list A) : M unit :=
  match arr with
  | [] => throw (gcnew IndexOutOfRangeException "" None)
  | _ :: _ => ret tt
  end.

(** The body of the two loops of [ForwardPass]: pin the three arrays of
    [item] and describe them to the engine. *)
Definition map_item (item : ref) : M (Native.ValueBuffer ElemType) :=
  vb <- deref item ;;
  _ <- address_of_first (m_buffer vb) ;;
  _ <- address_of_first (m_indices vb) ;;
  _ <- address_of_first (m_colIndices vb) ;;
  ret {| Native.m_buffer := Native.InitFrom (m_buffer vb) (m_size vb) (m_size vb);
         Native.m_indices := Native.InitFrom (m_indices vb) (m_size vb) (m_size vb);
         Native.m_colIndices := Native.InitFrom (m_colIndices vb) (m_size vb) (m_size vb) |}.

(** What a store of the engine does to the managed heap.  The engine holds
    plain pointers to the elements of the arrays; a managed array has a
    fixed length, and a store outside an array is beyond what the heap
    records. *)
Definition target (inputs outputs : list ref) (side : Native.Side) (k : nat) : option ref :=
  match side with
  | Native.input => inputs !! k
  | Native.output => outputs !! k
  end.

Definition store_buffer (i : nat) (v : ElemType) (vb : ValueBuffer ElemType) :=
  {| m_size := m_size vb;
     m_buffer := <[i := v]> (m_buffer vb);
     m_indices := m_indices vb;
     m_colIndices := m_colIndices vb |}.

Definition store_indices (i : nat) (v : Z) (vb : ValueBuffer ElemType) :=
  {| m_size := m_size vb;
     m_buffer := m_buffer vb;
     m_indices := <[i := v]> (m_indices vb);
     m_colIndices := m_colIndices vb |}.

Definition store_colIndices (i : nat) (v : Z) (vb : ValueBuffer ElemType) :=
  {| m_size := m_size vb;
     m_buffer := m_buffer vb;
     m_indices := m_indices vb;
     m_colIndices := <[i := v]> (m_colIndices vb) |}.

Definition apply_write (inputs outputs : list ref)
    (h : list (ValueBuffer ElemType)) (w : Native.Write ElemType) :
    list (ValueBuffer ElemType) :=
  match w with
  | Native.write_buffer side k i v =>
      match target inputs outputs side k with
      | Some r => alter (store_buffer i v) r h
      | None => h
      end
  | Native.write_indices side k i v =>
      match target inputs outputs side k with
      | Some r => alter (store_indices i v) r h
      | None => h
      end
  | Native.write_colIndices side k i v =>
      match target inputs outputs side k with
      | Some r => alter (store_colIndices i v) r h
      | None => h
      end
  end.

(** [m_eval->ForwardPass(stdInputs, stdOutputs)] *)
Definition invoke_ForwardPass (eval : Engine) (inputs outputs : list ref)
    (stdInputs stdOutputs : Native.ValueRefs ElemType) : M unit :=
  fun s =>
    let '(eval', writes, r) := Native.ForwardPass stdInputs stdOutputs eval in
    (outcome_of r,
     {| m_eval := Some eval';
        heap := foldl (apply_write inputs outputs) (heap s) writes;
        native_calls := native_calls s ++ [call_ForwardPass stdInputs stdOutputs] |}).

Definition ForwardPass (inputs outputs : list ref) : M unit :=
  this <- get ;;
  match m_eval this with
  | None => throw disposed
  | Some eval =>
      try_catch_managed
        (stdInputs <- for_each inputs map_item ;;
         stdOutputs <- for_each outputs map_item ;;
         try_catch
           (invoke_ForwardPass eval inputs outputs stdInputs stdOutputs)
           (fun ex => throw (GetCustomException ex)))
        (fun e => throw e)
  end.

(** *** Teardown *)

(** The finalizer [!IEvaluateModelExtendedManaged()] *)
Definition finalizer : M unit :=
  fun s =>
    match m_eval s with
    | Some eval =>
        (Returns tt,
         {| m_eval := None;
            heap := heap s;
            native_calls := native_calls s ++ [call_Destroy] |})
    | None => (Returns tt, s)
    end.

(** The destructor [~IEvaluateModelExtendedManaged()], which is what
    [Dispose] runs. *)
Definition destructor : M unit :=
  this <- get ;;
  match m_eval this with
  | None => ret tt
  | Some _ => finalizer
  end.

End Wrapper.

Arguments M : clear implicits.

(** ** Vocabulary of the properties *)

(** Modelled from the spec: the table of section 4.1.1, native category to
    signaled kind. *)
Inductive NativeCategory : Type :=
| runtime_error_with_call_stack
| logic_error_with_call_stack
| invalid_argument_with_call_stack
| allocation_failure
| anything_else.

Definition signaled_kind (c : NativeCategory) : ExceptionClass :=
  match c with
  | runtime_error_with_call_stack => CNTKRuntimeException
  | logic_error_with_call_stack => CNTKLogicErrorException
  | invalid_argument_with_call_stack => CNTKInvalidArgumentException
  | allocation_failure => CNTKBadAllocException
  | anything_else => CNTKException
  end.

(** The most specific category of a native exception: the category of its
    dynamic type ([invalid_argument] derives from [logic_error], and is not
    filed under it). *)
Definition category (ex : Native.exception) : NativeCategory :=
  match ex with
  | Native.ExceptionWithCallStack Native.runtime_error _ _ => runtime_error_with_call_stack
  | Native.ExceptionWithCallStack Native.logic_error _ _ => logic_error_with_call_stack
  | Native.ExceptionWithCallStack Native.invalid_argument _ _ => invalid_argument_with_call_stack
  | Native.bad_alloc _ => allocation_failure
  | Native.other_exception _ _ => anything_else
  end.

(** What indexing an array outside its bounds throws. *)
Definition out_of_range : Exception := gcnew IndexOutOfRangeException "" None.

(** A buffer whose stored size and three array lengths all are [n]. *)
Definition sized {ElemType : Type} (vb : ValueBuffer ElemType) (n : Z) : Prop :=
  m_size vb = n /\
  Z.of_nat (length (m_buffer vb)) = n /\
  Z.of_nat (length (m_indices vb)) = n /\
  Z.of_nat (length (m_colIndices vb)) = n.

(** Two states of one buffer with the same stored size and array lengths. *)
Definition same_shape {ElemType : Type} (vb vb' : ValueBuffer ElemType) : Prop :=
  m_size vb' = m_size vb /\
  length (m_buffer vb') = length (m_buffer vb) /\
  length (m_indices vb') = length (m_indices vb) /\
  length (m_colIndices vb') = length (m_colIndices vb).

(** Every object of [h] is still in [h'], with the shape it had. *)
Definition shapes_kept {ElemType : Type} (h h' : list (ValueBuffer ElemType)) : Prop :=
  forall (r : ref) (vb : ValueBuffer ElemType),
    h !! r = Some vb -> exists vb', h' !! r = Some vb' /\ same_shape vb vb'.

(** One of the three arrays has no element 0. *)
Definition has_empty_array {ElemType : Type} (vb : ValueBuffer ElemType) : bool :=
  match m_buffer vb, m_indices vb, m_colIndices vb with
  | _ :: _, _ :: _, _ :: _ => false
  | _, _, _ => true
  end.

(** The number of [Destroy()] calls in a log. *)
Definition is_Destroy {ElemType : Type} (c : NativeCall ElemType) : bool :=
  match c with call_Destroy => true | _ => false end.

Definition Destroy_count {ElemType : Type} (log : list (NativeCall ElemType)) : nat :=
  length (filter (fun c => is_Destroy c = true) log).

(** The two ways teardown runs: [Dispose()] (the destructor) and the
    collector (the finalizer). *)
Inductive Teardown : Type := by_Dispose | by_collector.

(** The operations of the wrapper, for statements about all of them. *)
Inductive Operation : Type :=
| op_new_ValueBuffer (size : Z)
| op_CreateBuffers (schema : VariableSchema) (maxLengths : list Z)
| op_CreateBuffers_min (schema : VariableSchema)
| op_construct (funcName : string)
| op_CreateNetwork (networkDescription : string)
| op_GetInputSchema
| op_GetOutputSchema
| op_StartForwardEvaluation (outputs : list string)
| op_ForwardPass (inputs outputs : list ref)
| op_teardown (how : Teardown).

Section Drivers.

Context {ElemType : Type} (zero : ElemType).
Context {Engine : Type} `{!Native.IEvaluateModelExtended ElemType Engine}.
Context {HMODULE : Type}.
Variable LoadLibrary : string -> option HMODULE.
Variable GetProcAddress : HMODULE -> string -> option (Native.result Engine).

Local Abbreviation State := (State ElemType Engine).
Local Abbreviation M := (M ElemType Engine).

Definition teardown (how : Teardown) : M unit :=
  match how with
  | by_Dispose => destructor
  | by_collector => finalizer
  end.

(** Teardown invoked once per entry of [hows], in order. *)
Fixpoint teardowns (hows : list Teardown) : M unit :=
  match hows with
  | [] => ret tt
  | how :: rest => bind (teardown how) (fun _ => teardowns rest)
  end.

(** The state an operation leaves behind, however it ends. *)
Definition run (op : Operation) (s : State) : State :=
  match op with
  | op_new_ValueBuffer size => (new_ValueBuffer zero size s).2
  | op_CreateBuffers schema maxLengths => (CreateBuffers zero schema maxLengths s).2
  | op_CreateBuffers_min schema => (CreateBuffers_min zero schema s).2
  | op_construct funcName =>
      (IEvaluateModelExtendedManaged LoadLibrary GetProcAddress funcName s).2
  | op_CreateNetwork networkDescription => (CreateNetwork networkDescription s).2
  | op_GetInputSchema => (GetInputSchema s).2
  | op_GetOutputSchema => (GetOutputSchema s).2
  | op_StartForwardEvaluation outputs => (StartForwardEvaluation outputs s).2
  | op_ForwardPass inputs outputs => (ForwardPass inputs outputs s).2
  | op_teardown how => (teardown how s).2
  end.

Definition run_all (ops : list Operation) (s : State) : State :=
  foldl (fun s op => run op s) s ops.

(** The state with its heap replaced. *)
Definition with_heap (s : State) (h : list (ValueBuffer ElemType)) : State :=
  {| m_eval := m_eval s; heap := h; native_calls := native_calls s |}.

(** What the constructor of [ValueBuffer] builds for a size. *)
Definition blank (size : Z) : ValueBuffer ElemType :=
  {| m_size := size;
     m_buffer := replicate (Z.to_nat size) zero;
     m_indices := replicate (Z.to_nat size) 0%Z;
     m_colIndices := replicate (Z.to_nat size) 0%Z |}.

(** A computation that leaves every object of the heap in place and in
    shape, however it ends. *)
Definition keeps_shapes {A : Type} (m : M A) : Prop :=
  forall s : State, shapes_kept (heap s) (heap (m s).2).

(** What the loop of a schema query copies from a native layout. *)
Definition copies (lay : Native.VariableLayout) (layout : VariableLayout) : Prop :=
  m_name layout = c_str (Native.m_name lay) /\
  DataType.to_int (m_dataType layout) = Native.m_dataType lay /\
  m_numElements layout = int_of (Native.m_numElements lay) /\
  m_storageType layout = StorageType.Undetermined.

End Drivers.

(** ** A scripted engine

    An engine that answers every call as its script says; the element type
    is of no consequence and is taken to be [Z]. *)

Record Script : Type := {
  on_CreateNetwork : Native.result unit;
  on_GetInputSchema : Native.result Native.VariableSchema;
  on_GetOutputSchema : Native.result Native.VariableSchema;
  on_StartForwardEvaluation : Native.result unit;
  on_ForwardPass : list (Native.Write Z) * Native.result unit
}.

#[export] Instance scripted : Native.IEvaluateModelExtended Z Script := {|
  Native.CreateNetwork _ e := (e, on_CreateNetwork e);
  Native.GetInputSchema e := (e, on_GetInputSchema e);
  Native.GetOutputSchema e := (e, on_GetOutputSchema e);
  Native.StartForwardEvaluation _ e := (e, on_StartForwardEvaluation e);
  Native.ForwardPass _ _ e := (e, fst (on_ForwardPass e), snd (on_ForwardPass e))
|}.

(** A model with one dense input of four elements and one output. *)
Definition features : Native.VariableLayout :=
  {| Native.m_name := "features";
     Native.m_dataType := DataType.to_int DataType.Float32;
     Native.m_storageType := StorageType.to_int StorageType.Dense;
     Native.m_numElements := 4 |}.

Definition scores : Native.VariableLayout :=
  {| Native.m_name := "scores";
     Native.m_dataType := DataType.to_int DataType.Float32;
     Native.m_storageType := StorageType.to_int StorageType.Dense;
     Native.m_numElements := 2 |}.

Definition well_behaved : Script :=
  {| on_CreateNetwork := Native.returns tt;
     on_GetInputSchema := Native.returns [features];
     on_GetOutputSchema := Native.returns [scores];
     on_StartForwardEvaluation := Native.returns tt;
     on_ForwardPass := ([Native.write_buffer Native.output 0 1 7%Z], Native.returns tt) |}.

(** The same model, asked to evaluate an output it does not have. *)
Definition unknown_node : Native.exception :=
  Native.ExceptionWithCallStack Native.invalid_argument
    "node not found" "[CALL STACK]".

Definition rejecting : Script :=
  {| on_CreateNetwork := Native.returns tt;
     on_GetInputSchema := Native.returns [features];
     on_GetOutputSchema := Native.returns [scores];
     on_StartForwardEvaluation := Native.throws unknown_node;
     on_ForwardPass := ([], Native.returns tt) |}.

(** A live instance over a script, with an empty heap and an empty log. *)
Definition live (e : Script) : State Z Script :=
  {| m_eval := Some e; heap := []; native_calls := [] |}.

(** Loaders: the library is missing; the library is there and exports no
    such symbol; the factory works; the factory throws. *)
Definition no_library : string -> option unit := fun _ => None.
Definition library_found : string -> option unit := fun _ => Some tt.
Definition no_symbol : unit -> string -> option (Native.result Script) :=
  fun _ _ => None.
Definition factory_ok : unit -> string -> option (Native.result Script) :=
  fun _ _ => Some (Native.returns well_behaved).
Definition factory_throws : unit -> string -> option (Native.result Script) :=
  fun _ _ => Some (Native.throws (Native.bad_alloc "bad allocation")).

(** A heap of two buffers, the second without elements. *)
Definition two_buffers : State Z Script :=
  {| m_eval := Some well_behaved;
     heap := [blank 0%Z 2; blank 0%Z 0];
     native_calls := [] |}.

(** Schemas for the buffer factory. *)
Definition layout_of (n : Z) : VariableLayout :=
  {| m_name := "x";
     m_dataType := DataType.Float32;
     m_storageType := StorageType.Undetermined;
     m_numElements := n |}.

(** ** Vocabulary of the further properties *)

(** The data types the converter knows: the values of the two managed
    enumerators. *)
Definition known_DataType (dataType : Z) : bool :=
  (dataType =? DataType.to_int DataType.Float32)%Z ||
  (dataType =? DataType.to_int DataType.Float64)%Z.

(** What [GetDataType] throws for any other value. *)
Definition unknown_DataType (dataType : Z) : Exception :=
  gcnew CNTKRuntimeException
    ("Cannot convert native DataType with value: " +:+ pretty dataType +:+
     " to corresponding managed DataType.")
    (Some EmptyString).

(** A string without NUL character. *)
Fixpoint NUL_free (s : string) : bool :=
  match s with
  | EmptyString => true
  | String c rest => negb (Ascii.eqb c Ascii.zero) && NUL_free rest
  end.

(** A native layout whose name and element count fit the managed fields. *)
Definition fits (lay : Native.VariableLayout) : Prop :=
  known_DataType (Native.m_dataType lay) = true /\
  NUL_free (Native.m_name lay) = true /\
  (0 <= Native.m_numElements lay < 2 ^ 31)%Z.

(** The managed layout repeats name, data type and element count. *)
Definition repeats (lay : Native.VariableLayout) (layout : VariableLayout) : Prop :=
  m_name layout = Native.m_name lay /\
  DataType.to_int (m_dataType layout) = Native.m_dataType lay /\
  m_numElements layout = Native.m_numElements lay.

(** What [ForwardPass] tells the engine about a buffer: the three arrays,
    each with [m_size] as its size and as its capacity. *)
Definition describe {ElemType : Type} (vb : ValueBuffer ElemType) :
    Native.ValueBuffer ElemType :=
  {| Native.m_buffer := Native.InitFrom (m_buffer vb) (m_size vb) (m_size vb);
     Native.m_indices := Native.InitFrom (m_indices vb) (m_size vb) (m_size vb);
     Native.m_colIndices := Native.InitFrom (m_colIndices vb) (m_size vb) (m_size vb) |}.

(** A reference [ForwardPass] can pin: it designates a buffer whose three
    arrays have an element 0. *)
Definition pinnable {ElemType : Type} (h : list (ValueBuffer ElemType)) (r : ref) : bool :=
  match h !! r with
  | Some vb => negb (has_empty_array vb)
  | None => false
  end.

(** What pinning throws on a reference that is not pinnable. *)
Definition not_pinnable {ElemType : Type} (h : list (ValueBuffer ElemType)) (r : ref) :
    Exception :=
  match h !! r with
  | Some _ => out_of_range
  | None => gcnew NullReferenceException "" None
  end.

(** A native result as a handler that translates leaves it. *)
Definition translated (res : Native.result unit) : Outcome unit :=
  match res with
  | Native.returns _ => Returns tt
  | Native.throws ex => Throws (GetCustomException ex)
  end.

(** The method ends in managed terms: it returns or throws a managed
    exception. *)
Definition ends_managed {A : Type} (o : Outcome A) : Prop :=
  match o with
  | Returns _ | Throws _ => True
  | NativeThrow _ | NullCall => False
  end.

(** Operations on an instance that exists already. *)
Definition on_instance (op : Operation) : bool :=
  match op with
  | op_construct _ => false
  | _ => true
  end.

(** Operations that neither take nor need the native handle. *)
Definition allocates (op : Operation) : bool :=
  match op with
  | op_new_ValueBuffer _ | op_CreateBuffers _ _ | op_CreateBuffers_min _ => true
  | _ => false
  end.

(** Operations that allocate buffers or hand buffers to the engine. *)
Definition touches_heap (op : Operation) : bool :=
  match op with
  | op_ForwardPass _ _ => true
  | _ => allocates op
  end.

(** The sizes [CreateBuffers(maxLengths)] asks for: the products, as
    [int]s. *)
Definition wrapped_sizes (this : VariableSchema) (maxLengths : list Z) : list Z :=
  (fun p => int_of (m_numElements p.1 * p.2)) <$> zip this maxLengths.

(** What [gcnew array<T>(size)] throws for a negative size. *)
Definition negative_size : Exception := gcnew OverflowException "" None.

Section FurtherVocabulary.

Context {ElemType Engine : Type}.

Local Abbreviation State := (State ElemType Engine).
Local Abbreviation M := (M ElemType Engine).

(** The state after a call through the handle: the engine has moved on and
    the call is in the log. *)
Definition after_call (s : State) (eval' : Engine) (c : NativeCall ElemType) : State :=
  {| m_eval := Some eval'; heap := heap s; native_calls := native_calls s ++ [c] |}.

(** [Destroy()] has been called exactly when the handle is null, and at most
    once. *)
Definition handle_consistent (s : State) : Prop :=
  match m_eval s with
  | Some _ => Destroy_count (native_calls s) = 0
  | None => Destroy_count (native_calls s) = 1
  end.

(** Three ways in which a later state can agree with an earlier one: the
    heap is the same; the handle and the log of native calls are the same; a
    live handle is still live and no [Destroy()] has been added. *)
Definition same_heap (s s' : State) : Prop := heap s' = heap s.

Definition same_instance (s s' : State) : Prop :=
  m_eval s' = m_eval s /\ native_calls s' = native_calls s.

Definition stays_live (s s' : State) : Prop :=
  is_Some (m_eval s) ->
  is_Some (m_eval s') /\
  Destroy_count (native_calls s') = Destroy_count (native_calls s).

(** A computation whose final state, however it ends, is related to its
    initial state. *)
Definition preserves (R : State -> State -> Prop) {A : Type} (m : M A) : Prop :=
  forall s : State, R s (m s).2.

End FurtherVocabulary.

(** An engine whose input schema has an entry of a data type the wrapper
    does not know. *)
Definition mistyped : Native.VariableLayout :=
  {| Native.m_name := "labels";
     Native.m_dataType := 7;
     Native.m_storageType := StorageType.to_int StorageType.Sparse;
     Native.m_numElements := 10 |}.

Definition confused : Script :=
  {| on_CreateNetwork := Native.throws (Native.bad_alloc "bad allocation");
     on_GetInputSchema := Native.returns [features; mistyped; scores];
     on_GetOutputSchema := Native.throws unknown_node;
     on_StartForwardEvaluation := Native.returns tt;
     on_ForwardPass := ([], Native.throws unknown_node) |}.

(** A heap of two buffers of sizes 2 and 3. *)
Definition two_full_buffers : State Z Script :=
  {| m_eval := Some well_behaved;
     heap := [blank 0%Z 2; blank 0%Z 3];
     native_calls := [] |}.

(** * Properties *)

Section Properties.

Context {ElemType : Type} (zero : ElemType).
Context {Engine : Type} `{!Native.IEvaluateModelExtended ElemType Engine}.
Context {HMODULE : Type}.
Variable LoadLibrary : string -> option HMODULE.
Variable GetProcAddress : HMODULE -> string -> option (Native.result Engine).

Local Abbreviation State := (State ElemType Engine).
Local Abbreviation M := (M ElemType Engine).

Local Abbreviation keeps := (keeps_shapes (ElemType := ElemType) (Engine := Engine)).

Implicit Types (s : State) (r : ref) (vb : ValueBuffer ElemType).

(** ** Use after teardown *)

(** C1.  On an instance that has been torn down ([m_eval] is [nullptr]),
    [CreateNetwork], [GetInputSchema], [GetOutputSchema],
    [StartForwardEvaluation] and [ForwardPass] all throw
    [ObjectDisposedException], whatever their arguments, and leave the state
    (handle, heap, log of native calls) as it was. *)
Theorem use_after_teardown s :
  m_eval s = None ->
  (forall networkDescription, CreateNetwork networkDescription s = (Throws disposed, s)) /\
  GetInputSchema s = (Throws disposed, s) /\
  GetOutputSchema s = (Throws disposed, s) /\
  (forall outputs, StartForwardEvaluation outputs s = (Throws disposed, s)) /\
  (forall inputs outputs, ForwardPass inputs outputs s = (Throws disposed, s)).
Proof.
  intros Hnull.
  unfold CreateNetwork, GetInputSchema, GetOutputSchema, StartForwardEvaluation,
    ForwardPass, bind, get.
  cbn beta iota. rewrite Hnull.
  repeat split; intros; reflexivity.
Qed.

(** ** Exception translation *)

(** C2.  [GetCustomException] gives every native exception the managed class
    the table documents for its most specific category, with the message of
    [what()] unchanged, and with the native call stack exactly when the
    native exception has one. *)
Theorem GetCustomException_table (ex : Native.exception) :
  class_of (GetCustomException ex) = signaled_kind (category ex) /\
  text (GetCustomException ex) = Native.what ex /\
  NativeCallStack (GetCustomException ex) = Native.CallStack ex.
Proof.
  destruct ex as [[] msg callstack | msg | type_name msg]; repeat split.
Qed.

(** ** The buffer factory: the length check *)

(** C7.  When the list of maximum lengths and the schema differ in length,
    [CreateBuffers(maxLengths)] throws [CNTKRuntimeException] and the state
    is as before: no buffer was allocated. *)
Theorem CreateBuffers_length_mismatch (this : VariableSchema) (maxLengths : list Z) s :
  length maxLengths <> length this ->
  CreateBuffers zero this maxLengths s =
    (Throws (gcnew CNTKRuntimeException "Expected max lengths for all variables."
               (Some EmptyString)), s).
Proof.
  intros Hlen. unfold CreateBuffers.
  destruct (decide (length maxLengths ≠ length this)) as [_ | Heq].
  - reflexivity.
  - contradiction.
Qed.

(** ** Teardown *)

Lemma teardown_live (how : Teardown) s (eval : Engine) :
  m_eval s = Some eval ->
  teardown how s =
    (Returns tt,
     {| m_eval := None; heap := heap s; native_calls := native_calls s ++ [call_Destroy] |}).
Proof.
  intros Hlive.
  destruct how; unfold teardown, destructor, finalizer, bind, get; cbn beta iota;
    repeat (rewrite Hlive; cbn beta iota); reflexivity.
Qed.

Lemma teardown_disposed (how : Teardown) s :
  m_eval s = None -> teardown how s = (Returns tt, s).
Proof.
  intros Hnull.
  destruct how; unfold teardown, destructor, finalizer, bind, get, ret; cbn beta iota;
    repeat (rewrite Hnull; cbn beta iota); reflexivity.
Qed.

Lemma teardown_disposes (how : Teardown) s : m_eval (teardown how s).2 = None.
Proof.
  destruct (m_eval s) as [eval |] eqn:E.
  - rewrite (teardown_live how s eval E). reflexivity.
  - rewrite (teardown_disposed how s E). exact E.
Qed.

Lemma teardowns_disposed (hows : list Teardown) s :
  m_eval s = None -> teardowns hows s = (Returns tt, s).
Proof.
  intros Hnull. induction hows as [| how rest IH]; simpl.
  - reflexivity.
  - unfold bind. rewrite teardown_disposed by assumption. exact IH.
Qed.

Lemma Destroy_count_snoc (log : list (NativeCall ElemType)) :
  Destroy_count (log ++ [call_Destroy]) = S (Destroy_count log).
Proof.
  unfold Destroy_count. rewrite filter_app, length_app. simpl. lia.
Qed.

(** C8.  From a live instance, teardown invoked any number of times at
    least once (so every N > 1), by [Dispose] or by the collector in any
    mix, returns normally every time, clears the handle, and adds exactly
    one call to the log of native calls: one [Destroy()]. *)
Theorem teardown_idempotent (hows : list Teardown) s (eval : Engine) :
  m_eval s = Some eval ->
  1 <= length hows ->
  teardowns hows s =
    (Returns tt,
     {| m_eval := None; heap := heap s; native_calls := native_calls s ++ [call_Destroy] |}) /\
  Destroy_count (native_calls (teardowns hows s).2) = S (Destroy_count (native_calls s)).
Proof.
  intros Hlive Hn.
  destruct hows as [| how rest]; [simpl in Hn; lia |].
  assert (Hrun : teardowns (how :: rest) s =
    (Returns tt,
     {| m_eval := None; heap := heap s; native_calls := native_calls s ++ [call_Destroy] |})).
  { simpl. unfold bind. rewrite (teardown_live how s eval Hlive).
    apply teardowns_disposed. reflexivity. }
  split; [exact Hrun |].
  rewrite Hrun. simpl. apply Destroy_count_snoc.
Qed.

(** ** The monad and its loops *)

Lemma bind_ret_l {A B : Type} (a : A) (k : A -> M B) s : bind (ret a) k s = k a s.
Proof. reflexivity. Qed.

Lemma bind_Returns {A B : Type} (m : M A) (k : A -> M B) s (a : A) s1 :
  m s = (Returns a, s1) -> bind m k s = k a s1.
Proof. intros Hm. unfold bind. by rewrite Hm. Qed.

Lemma bind_Throws {A B : Type} (m : M A) (k : A -> M B) s (e : Exception) s1 :
  m s = (Throws e, s1) -> bind m k s = (Throws e, s1).
Proof. intros Hm. unfold bind. by rewrite Hm. Qed.

Lemma bind_Returns_inv {A B : Type} (m : M A) (k : A -> M B) s (b : B) s' :
  bind m k s = (Returns b, s') ->
  exists (a : A) s1, m s = (Returns a, s1) /\ k a s1 = (Returns b, s').
Proof.
  unfold bind. destruct (m s) as [[a | e | ex |] s1]; try discriminate.
  intros Hk. by exists a, s1.
Qed.

Lemma bind_assoc {A B C : Type} (m : M A) (k : A -> M B) (k' : B -> M C) s :
  bind (bind m k) k' s = bind m (fun a => bind (k a) k') s.
Proof. unfold bind. by destruct (m s) as [[a | e | ex |] s1]. Qed.

Lemma bind_ext_l {A B : Type} (m m' : M A) (k : A -> M B) s :
  m s = m' s -> bind m k s = bind m' k s.
Proof. intros Hm. unfold bind. by rewrite Hm. Qed.

Lemma bind_ext_r {A B : Type} (m : M A) (k k' : A -> M B) s :
  (forall a s', k a s' = k' a s') -> bind m k s = bind m k' s.
Proof. intros Hk. unfold bind. destruct (m s) as [[a | e | ex |] s1]; auto. Qed.

Lemma for_each_ext {A B : Type} (items : list A) (f g : A -> M B) s :
  (forall a s', a ∈ items -> f a s' = g a s') ->
  for_each items f s = for_each items g s.
Proof.
  revert s. induction items as [| a rest IH]; intros s Hfg; simpl.
  - reflexivity.
  - rewrite (bind_ext_l (f a) (g a)) by (apply Hfg; left).
    apply bind_ext_r. intros b s1.
    apply bind_ext_l, IH.
    intros a' s' Hin. apply Hfg. by right.
Qed.

Lemma for_each_fmap {A B C : Type} (h : A -> B) (items : list A) (g : B -> M C) s :
  for_each (h <$> items) g s = for_each items (fun a => g (h a)) s.
Proof.
  revert s. induction items as [| a rest IH]; intros s.
  - reflexivity.
  - rewrite fmap_cons. simpl.
    apply bind_ext_r. intros b s1. apply bind_ext_l, IH.
Qed.

Lemma item_middle {A : Type} (pre : list A) (a : A) (rest : list A) :
  (item (pre ++ a :: rest) (length pre) : M A) = ret a.
Proof. unfold item. by rewrite list_lookup_middle. Qed.

(** A loop over the indices of a list that starts by reading the entry is a
    loop over the entries. *)
Lemma for_each_index {A B : Type} (l pre : list A) (body : A -> M B) s :
  for_each (seq (length pre) (length l)) (fun i => bind (item (pre ++ l) i) body) s =
  for_each l body s.
Proof.
  revert pre s. induction l as [| a rest IH]; intros pre s.
  - reflexivity.
  - cbn [length seq for_each].
    rewrite item_middle.
    rewrite (bind_ext_l (bind (ret a) body) (body a)) by apply bind_ret_l.
    apply bind_ext_r. intros b s1. apply bind_ext_l.
    specialize (IH (pre ++ [a]) s1).
    rewrite length_app, <- app_assoc in IH. cbn [length app] in IH.
    replace (length pre + 1) with (S (length pre)) in IH by lia.
    exact IH.
Qed.

(** ** The constructor of [ValueBuffer] *)

Lemma new_ValueBuffer_ok (size : Z) s :
  (0 <= size)%Z ->
  new_ValueBuffer zero size s =
    (Returns (length (heap s)), with_heap s (heap s ++ [blank zero size])).
Proof.
  intros Hsize. unfold new_ValueBuffer, bind, gcnew_array.
  destruct (Z.ltb_spec size 0) as [Hneg | _]; [lia |].
  reflexivity.
Qed.

Lemma new_ValueBuffer_negative (size : Z) s :
  (size < 0)%Z ->
  new_ValueBuffer zero size s = (Throws (gcnew OverflowException "" None), s).
Proof.
  intros Hsize. unfold new_ValueBuffer, bind, gcnew_array.
  destruct (Z.ltb_spec size 0) as [_ | Hpos]; [| lia].
  reflexivity.
Qed.

Lemma blank_sized (size : Z) : (0 <= size)%Z -> sized (blank zero size) size.
Proof.
  intros Hsize. unfold sized, blank; simpl.
  rewrite !length_replicate, Z2Nat.id by assumption. auto.
Qed.

Lemma for_each_new_ValueBuffer (sizes : list Z) s :
  Forall (fun size => 0 <= size)%Z sizes ->
  for_each sizes (new_ValueBuffer zero) s =
    (Returns (seq (length (heap s)) (length sizes)),
     with_heap s (heap s ++ (blank zero <$> sizes))).
Proof.
  intros Hsizes. revert s.
  induction Hsizes as [| size rest Hsize _ IH]; intros s; simpl.
  - unfold ret, with_heap. rewrite app_nil_r. by destruct s.
  - unfold bind. rewrite new_ValueBuffer_ok by assumption.
    rewrite IH. unfold ret, with_heap; simpl.
    rewrite length_app, <- app_assoc; simpl.
    replace (length (heap s) + 1) with (S (length (heap s))) by lia.
    reflexivity.
Qed.

(** ** The buffer factory: sizes *)

Lemma int_of_small (z : Z) : (- 2 ^ 31 <= z < 2 ^ 31)%Z -> int_of z = z.
Proof. intros Hz. unfold int_of. rewrite Z.mod_small; lia. Qed.

Lemma CreateBuffers_min_loop (this : VariableSchema) s :
  CreateBuffers_min zero this s =
  for_each (m_numElements <$> this) (new_ValueBuffer zero) s.
Proof.
  unfold CreateBuffers_min. rewrite for_each_fmap.
  exact (for_each_index this [] (fun layout => new_ValueBuffer zero (m_numElements layout)) s).
Qed.

(** The loop of [CreateBuffers(maxLengths)] walks the two lists in step. *)
Lemma for_each_index2 {A B C : Type} (l1 pre1 : list A) (l2 pre2 : list B)
    (body : A -> B -> M C) s :
  length pre1 = length pre2 ->
  length l1 = length l2 ->
  for_each (seq (length pre1) (length l1))
    (fun i => bind (item (pre1 ++ l1) i) (fun a => bind (item (pre2 ++ l2) i) (body a))) s =
  for_each (zip l1 l2) (fun p => body p.1 p.2) s.
Proof.
  revert pre1 l2 pre2 s.
  induction l1 as [| a rest1 IH]; intros pre1 [| b rest2] pre2 s Hpre Hlen;
    try discriminate Hlen.
  - reflexivity.
  - cbn [length seq for_each zip_with].
    rewrite item_middle.
    rewrite (bind_ext_l _ (body a b)).
    2:{ rewrite bind_ret_l, Hpre, item_middle. apply bind_ret_l. }
    apply bind_ext_r. intros c s1. apply bind_ext_l.
    specialize (IH (pre1 ++ [a]) rest2 (pre2 ++ [b]) s1).
    rewrite !length_app, <- !app_assoc in IH. cbn [length app] in IH.
    replace (length pre1 + 1) with (S (length pre1)) in IH by lia.
    apply IH; [lia | by injection Hlen].
Qed.

Lemma CreateBuffers_loop (this : VariableSchema) (maxLengths : list Z) s :
  length maxLengths = length this ->
  CreateBuffers zero this maxLengths s =
  for_each (zip this maxLengths)
    (fun p => new_ValueBuffer zero (int_of (m_numElements p.1 * p.2))) s.
Proof.
  intros Hlen. unfold CreateBuffers.
  destruct (decide (length maxLengths ≠ length this)) as [Hne | _]; [contradiction |].
  exact (for_each_index2 this [] maxLengths []
           (fun layout maxLength =>
              new_ValueBuffer zero (int_of (m_numElements layout * maxLength)))
           s eq_refl (eq_sym Hlen)).
Qed.

Lemma for_each_products (this : VariableSchema) (maxLengths : list Z) s :
  Forall2 (fun layout maxLength =>
             0 <= m_numElements layout * maxLength < 2 ^ 31)%Z this maxLengths ->
  for_each (zip this maxLengths)
    (fun p => new_ValueBuffer zero (int_of (m_numElements p.1 * p.2))) s =
    (Returns (seq (length (heap s)) (length this)),
     with_heap s
       (heap s ++
        (blank zero <$>
           zip_with (fun layout maxLength => m_numElements layout * maxLength)%Z
             this maxLengths))).
Proof.
  intros Hrange. revert s.
  induction Hrange as [| layout maxLength this' maxLengths' Hhead _ IH]; intros s.
  - cbn. unfold ret, with_heap. rewrite app_nil_r. by destruct s.
  - cbn [zip_with for_each fst snd length fmap list_fmap].
    cbn beta in Hhead.
    unfold bind. rewrite int_of_small by lia.
    rewrite new_ValueBuffer_ok by lia.
    rewrite IH. unfold ret, with_heap; simpl.
    rewrite length_app, <- app_assoc; simpl.
    replace (length (heap s) + 1) with (S (length (heap s))) by lia.
    reflexivity.
Qed.

(** C6, as amended.  For a schema of K entries with element counts
    [e1..eK]: when no [ei] is negative, [CreateBuffers()] returns references
    to exactly K new buffers, the i-th of size [ei]; and for a list
    [L1..LK] of maximum lengths, when every product [ei * Li] lies in
    [0, 2^31), [CreateBuffers(maxLengths)] returns references to exactly K
    new buffers, the i-th of size [ei * Li].  New buffers are appended to the
    heap, which is otherwise as before. *)
Theorem CreateBuffers_sizes (this : VariableSchema) s :
  (Forall (fun layout => 0 <= m_numElements layout)%Z this ->
   exists buffers,
     CreateBuffers_min zero this s =
       (Returns (seq (length (heap s)) (length this)), with_heap s (heap s ++ buffers)) /\
     Forall2 (fun vb layout => sized vb (m_numElements layout)) buffers this) /\
  (forall maxLengths : list Z,
   length maxLengths = length this ->
   Forall2 (fun layout maxLength =>
              0 <= m_numElements layout * maxLength < 2 ^ 31)%Z this maxLengths ->
   exists buffers,
     CreateBuffers zero this maxLengths s =
       (Returns (seq (length (heap s)) (length this)), with_heap s (heap s ++ buffers)) /\
     Forall2 (fun vb p => sized vb (m_numElements p.1 * p.2)) buffers (zip this maxLengths)).
Proof.
  split.
  - intros Hpos. exists (blank zero <$> (m_numElements <$> this)). split.
    + rewrite CreateBuffers_min_loop, for_each_new_ValueBuffer.
      * by rewrite length_fmap.
      * by apply Forall_fmap.
    + rewrite <- list_fmap_compose. apply Forall2_fmap_l, Forall_Forall2_diag.
      eapply Forall_impl; [exact Hpos |]. intros layout Hlayout. by apply blank_sized.
  - intros maxLengths Hlen Hrange.
    exists (blank zero <$>
              zip_with (fun layout maxLength => m_numElements layout * maxLength)%Z
                this maxLengths).
    split.
    + rewrite CreateBuffers_loop by assumption. by apply for_each_products.
    + clear Hlen. induction Hrange as [| layout maxLength this' maxLengths' Hhead _ IH].
      * constructor.
      * cbn beta in Hhead. cbn. constructor; [apply blank_sized; cbn; lia | exact IH].
Qed.

(** ** Shapes of buffers *)

Lemma same_shape_refl vb : same_shape vb vb.
Proof. by repeat split. Qed.

Lemma same_shape_trans vb1 vb2 vb3 :
  same_shape vb1 vb2 -> same_shape vb2 vb3 -> same_shape vb1 vb3.
Proof.
  intros (Hs & Hb & Hi & Hc) (Hs' & Hb' & Hi' & Hc').
  repeat split; congruence.
Qed.

Lemma same_shape_sized vb vb' (n : Z) : sized vb n -> same_shape vb vb' -> sized vb' n.
Proof.
  intros (Hs & Hb & Hi & Hc) (Hs' & Hb' & Hi' & Hc').
  repeat split; congruence.
Qed.

Lemma shapes_kept_refl (h : list (ValueBuffer ElemType)) : shapes_kept h h.
Proof. intros r vb Hvb. exists vb. split; [assumption | apply same_shape_refl]. Qed.

Lemma shapes_kept_trans (h1 h2 h3 : list (ValueBuffer ElemType)) :
  shapes_kept h1 h2 -> shapes_kept h2 h3 -> shapes_kept h1 h3.
Proof.
  intros H12 H23 r vb Hvb.
  destruct (H12 r vb Hvb) as (vb2 & Hvb2 & Hshape2).
  destruct (H23 r vb2 Hvb2) as (vb3 & Hvb3 & Hshape3).
  exists vb3. split; [assumption | by eapply same_shape_trans].
Qed.

Lemma shapes_kept_app (h new : list (ValueBuffer ElemType)) : shapes_kept h (h ++ new).
Proof.
  intros r vb Hvb. exists vb. split; [| apply same_shape_refl].
  by apply lookup_app_l_Some.
Qed.

Lemma shapes_kept_alter (f : ValueBuffer ElemType -> ValueBuffer ElemType) r
    (h : list (ValueBuffer ElemType)) :
  (forall vb, same_shape vb (f vb)) -> shapes_kept h (alter f r h).
Proof.
  intros Hf r' vb Hvb. destruct (decide (r = r')) as [<- | Hne].
  - exists (f vb). split; [| apply Hf].
    by rewrite list_lookup_alter_eq, Hvb.
  - exists vb. split; [| apply same_shape_refl].
    by rewrite list_lookup_alter_ne.
Qed.

Lemma store_buffer_shape (i : nat) (v : ElemType) vb : same_shape vb (store_buffer i v vb).
Proof. unfold same_shape, store_buffer; simpl. by rewrite length_insert. Qed.

Lemma store_indices_shape (i : nat) (v : Z) vb : same_shape vb (store_indices i v vb).
Proof. unfold same_shape, store_indices; simpl. by rewrite length_insert. Qed.

Lemma store_colIndices_shape (i : nat) (v : Z) vb : same_shape vb (store_colIndices i v vb).
Proof. unfold same_shape, store_colIndices; simpl. by rewrite length_insert. Qed.

Lemma shapes_kept_apply_write (inputs outputs : list ref)
    (h : list (ValueBuffer ElemType)) (w : Native.Write ElemType) :
  shapes_kept h (apply_write inputs outputs h w).
Proof.
  destruct w as [side k i v | side k i v | side k i v]; simpl;
    destruct (target inputs outputs side k) as [r |];
    try apply shapes_kept_refl; apply shapes_kept_alter; intros vb.
  - apply store_buffer_shape.
  - apply store_indices_shape.
  - apply store_colIndices_shape.
Qed.

Lemma shapes_kept_writes (inputs outputs : list ref) (writes : list (Native.Write ElemType))
    (h : list (ValueBuffer ElemType)) :
  shapes_kept h (foldl (apply_write inputs outputs) h writes).
Proof.
  revert h. induction writes as [| w rest IH]; intros h; simpl.
  - apply shapes_kept_refl.
  - eapply shapes_kept_trans; [apply shapes_kept_apply_write | apply IH].
Qed.

(** Every primitive of the monad keeps the shapes, and so does every way of
    combining computations. *)

Lemma keeps_ret {A : Type} (a : A) : keeps (ret a : M A).
Proof. intros s. apply shapes_kept_refl. Qed.

Lemma keeps_throw {A : Type} (e : Exception) : keeps (throw e : M A).
Proof. intros s. apply shapes_kept_refl. Qed.

Lemma keeps_get : keeps (get : M State).
Proof. intros s. apply shapes_kept_refl. Qed.

Lemma keeps_bind {A B : Type} (m : M A) (k : A -> M B) :
  keeps m -> (forall a, keeps (k a)) -> keeps (bind m k).
Proof.
  intros Hm Hk s. unfold bind. specialize (Hm s).
  destruct (m s) as [[a | e | ex |] s1]; simpl in *; try assumption.
  eapply shapes_kept_trans; [exact Hm | apply Hk].
Qed.

Lemma keeps_try_catch {A : Type} (m : M A) (handler : Native.exception -> M A) :
  keeps m -> (forall ex, keeps (handler ex)) ->
  keeps (try_catch m handler).
Proof.
  intros Hm Hh s. unfold try_catch. specialize (Hm s).
  destruct (m s) as [[a | e | ex |] s1]; simpl in *; try assumption.
  eapply shapes_kept_trans; [exact Hm | apply Hh].
Qed.

Lemma keeps_try_catch_managed {A : Type} (m : M A) (handler : Exception -> M A) :
  keeps m -> (forall e, keeps (handler e)) ->
  keeps (try_catch_managed m handler).
Proof.
  intros Hm Hh s. unfold try_catch_managed. specialize (Hm s).
  destruct (m s) as [[a | e | ex |] s1]; simpl in *; try assumption.
  eapply shapes_kept_trans; [exact Hm | apply Hh].
Qed.

Lemma keeps_for_each {A B : Type} (items : list A) (body : A -> M B) :
  (forall a, keeps (body a)) -> keeps (for_each items body).
Proof.
  intros Hbody. induction items as [| a rest IH]; simpl.
  - apply keeps_ret.
  - apply keeps_bind; [apply Hbody |]. intros b.
    apply keeps_bind; [apply IH |]. intros bs. apply keeps_ret.
Qed.

Lemma keeps_item {A : Type} (l : list A) (i : nat) : keeps (item l i : M A).
Proof. unfold item. destruct (l !! i); [apply keeps_ret | apply keeps_throw]. Qed.

Lemma keeps_gcnew_array {A : Type} (dflt : A) (size : Z) :
  keeps (gcnew_array dflt size : M (list A)).
Proof. unfold gcnew_array. destruct (size <? 0)%Z; [apply keeps_throw | apply keeps_ret]. Qed.

Lemma keeps_alloc vb : keeps (alloc vb : M ref).
Proof. intros s. simpl. apply shapes_kept_app. Qed.

Lemma keeps_deref r : keeps (deref r : M (ValueBuffer ElemType)).
Proof. intros s. unfold deref. destruct (heap s !! r); apply shapes_kept_refl. Qed.

Lemma keeps_address_of_first {A : Type} (arr : list A) :
  keeps (address_of_first arr : M unit).
Proof. destruct arr; [apply keeps_throw | apply keeps_ret]. Qed.

Lemma keeps_invoke {A : Type} (eval : Engine) (c : NativeCall ElemType)
    (f : Engine -> Engine * Native.result A) :
  keeps (invoke eval c f).
Proof. intros s. unfold invoke. destruct (f eval) as [eval' res]. apply shapes_kept_refl. Qed.

Lemma keeps_invoke_ForwardPass (eval : Engine) (inputs outputs : list ref)
    (stdInputs stdOutputs : Native.ValueRefs ElemType) :
  keeps (invoke_ForwardPass eval inputs outputs stdInputs stdOutputs).
Proof.
  intros s. unfold invoke_ForwardPass.
  destruct (Native.ForwardPass stdInputs stdOutputs eval) as [[eval' writes] res].
  apply shapes_kept_writes.
Qed.

Lemma keeps_call_getEvalProc (funcName : string)
    (getEvalProc : option (Native.result Engine)) :
  keeps (call_getEvalProc funcName getEvalProc : M unit).
Proof.
  intros s. unfold call_getEvalProc.
  destruct getEvalProc as [[eval | ex] |]; apply shapes_kept_refl.
Qed.

Lemma keeps_finalizer : keeps (finalizer : M unit).
Proof. intros s. unfold finalizer. destruct (m_eval s); apply shapes_kept_refl. Qed.

Create HintDb shapes.

#[local] Hint Resolve keeps_ret keeps_throw keeps_get keeps_item keeps_gcnew_array
  keeps_alloc keeps_deref keeps_address_of_first keeps_invoke keeps_invoke_ForwardPass
  keeps_call_getEvalProc keeps_finalizer : shapes.

(** Walks a method body: binds, loops, handlers and case distinctions. *)
Ltac keep_shapes :=
  repeat first
    [ solve [eauto with shapes]
    | match goal with
      | |- forall _, _ => intro
      | |- keeps_shapes (match ?x with _ => _ end) => destruct x
      end
    | progress cbn beta
    | apply keeps_bind
    | apply keeps_for_each
    | apply keeps_try_catch
    | apply keeps_try_catch_managed ].

Lemma keeps_new_ValueBuffer (size : Z) : keeps (new_ValueBuffer zero size).
Proof. unfold new_ValueBuffer. keep_shapes. Qed.

#[local] Hint Resolve keeps_new_ValueBuffer : shapes.

Lemma keeps_CreateBuffers (this : VariableSchema) (maxLengths : list Z) :
  keeps (CreateBuffers zero this maxLengths).
Proof. unfold CreateBuffers. keep_shapes. Qed.

Lemma keeps_CreateBuffers_min (this : VariableSchema) :
  keeps (CreateBuffers_min zero this).
Proof. unfold CreateBuffers_min. keep_shapes. Qed.

Lemma keeps_constructor (funcName : string) :
  keeps (IEvaluateModelExtendedManaged LoadLibrary GetProcAddress funcName : M unit).
Proof. unfold IEvaluateModelExtendedManaged. keep_shapes. Qed.

Lemma keeps_CreateNetwork (networkDescription : string) :
  keeps (CreateNetwork networkDescription).
Proof. unfold CreateNetwork. keep_shapes. Qed.

Lemma keeps_GetDataType (dataType : Z) : keeps (GetDataType dataType).
Proof. unfold GetDataType. keep_shapes. Qed.

#[local] Hint Resolve keeps_GetDataType : shapes.

Lemma keeps_convert_layout (lay : Native.VariableLayout) :
  keeps (convert_layout lay).
Proof. unfold convert_layout. keep_shapes. Qed.

#[local] Hint Resolve keeps_convert_layout : shapes.

Lemma keeps_GetInputSchema : keeps GetInputSchema.
Proof. unfold GetInputSchema. keep_shapes. Qed.

Lemma keeps_GetOutputSchema : keeps GetOutputSchema.
Proof. unfold GetOutputSchema. keep_shapes. Qed.

Lemma keeps_StartForwardEvaluation (outputs : list string) :
  keeps (StartForwardEvaluation outputs).
Proof. unfold StartForwardEvaluation. keep_shapes. Qed.

Lemma keeps_map_item r : keeps (map_item r).
Proof. unfold map_item. keep_shapes. Qed.

#[local] Hint Resolve keeps_map_item : shapes.

Lemma keeps_ForwardPass (inputs outputs : list ref) :
  keeps (ForwardPass inputs outputs).
Proof. unfold ForwardPass. keep_shapes. Qed.

Lemma keeps_teardown (how : Teardown) : keeps (teardown how).
Proof. destruct how; unfold teardown, destructor; keep_shapes. Qed.

Lemma run_keeps (op : Operation) s :
  shapes_kept (heap s) (heap (run zero LoadLibrary GetProcAddress op s)).
Proof.
  destruct op; simpl.
  - apply keeps_new_ValueBuffer.
  - apply keeps_CreateBuffers.
  - apply keeps_CreateBuffers_min.
  - apply keeps_constructor.
  - apply keeps_CreateNetwork.
  - apply keeps_GetInputSchema.
  - apply keeps_GetOutputSchema.
  - apply keeps_StartForwardEvaluation.
  - apply keeps_ForwardPass.
  - apply keeps_teardown.
Qed.

Lemma run_all_keeps (ops : list Operation) s :
  shapes_kept (heap s) (heap (run_all zero LoadLibrary GetProcAddress ops s)).
Proof.
  revert s. induction ops as [| op rest IH]; intros s; simpl.
  - apply shapes_kept_refl.
  - eapply shapes_kept_trans; [apply run_keeps | apply IH].
Qed.

(** C9.  A [ValueBuffer] constructed with size [s] has [m_size = s] and
    three arrays of length [s]; and after any sequence of operations of the
    wrapper (constructors, buffer factories, [CreateNetwork], the schema
    queries, [StartForwardEvaluation], [ForwardPass], teardown), however
    each of them ends, the same reference still designates a buffer with
    [m_size = s] and three arrays of length [s]. *)
Theorem ValueBuffer_shape (size : Z) s r s' :
  new_ValueBuffer zero size s = (Returns r, s') ->
  (exists vb, heap s' !! r = Some vb /\ sized vb size) /\
  (forall ops : list Operation,
     exists vb, heap (run_all zero LoadLibrary GetProcAddress ops s') !! r = Some vb /\
                sized vb size).
Proof.
  intros Hnew.
  destruct (Z.lt_ge_cases size 0) as [Hneg | Hpos].
  { rewrite new_ValueBuffer_negative in Hnew by assumption. discriminate Hnew. }
  rewrite new_ValueBuffer_ok in Hnew by assumption.
  injection Hnew as <- <-.
  assert (Hthere : heap (with_heap s (heap s ++ [blank zero size])) !! length (heap s) =
                   Some (blank zero size)).
  { simpl. by apply list_lookup_middle. }
  split.
  - exists (blank zero size). split; [exact Hthere | by apply blank_sized].
  - intros ops.
    destruct (run_all_keeps ops _ _ _ Hthere) as (vb & Hvb & Hshape).
    exists vb. split; [exact Hvb |].
    eapply same_shape_sized; [by apply blank_sized | exact Hshape].
Qed.

(** ** [ForwardPass] on a buffer without elements *)

Lemma map_item_empty s r vb :
  heap s !! r = Some vb -> has_empty_array vb = true ->
  map_item r s = (Throws out_of_range, s).
Proof.
  intros Hvb Hempty. unfold map_item, bind, deref. rewrite Hvb.
  unfold has_empty_array in Hempty.
  destruct (m_buffer vb), (m_indices vb), (m_colIndices vb);
    try discriminate Hempty; reflexivity.
Qed.

(** Pinning a buffer only reads: it ends by returning or by one of two
    exceptions, and the state is as before. *)
Lemma map_item_reads s r vb :
  heap s !! r = Some vb ->
  (exists std, map_item r s = (Returns std, s)) \/
  map_item r s = (Throws out_of_range, s).
Proof.
  intros Hvb. destruct (has_empty_array vb) eqn:Hempty.
  - right. by eapply map_item_empty.
  - left. unfold map_item, bind, deref. rewrite Hvb.
    unfold has_empty_array in Hempty.
    destruct (m_buffer vb), (m_indices vb), (m_colIndices vb);
      try discriminate Hempty.
    eexists. reflexivity.
Qed.

Lemma map_items_read s (items : list ref) :
  Forall (fun r => is_Some (heap s !! r)) items ->
  (exists stds, for_each items map_item s = (Returns stds, s)) \/
  for_each items map_item s = (Throws out_of_range, s).
Proof.
  induction 1 as [| r rest [vb Hvb] _ IH]; simpl.
  - left. by exists [].
  - destruct (map_item_reads s r vb Hvb) as [[std Hstd] | Hthrow].
    2:{ right. by apply bind_Throws. }
    rewrite (bind_Returns _ _ _ _ _ Hstd).
    destruct IH as [[stds Hstds] | Hthrow].
    + left. exists (std :: stds). by rewrite (bind_Returns _ _ _ _ _ Hstds).
    + right. by apply bind_Throws.
Qed.

(** An empty buffer ends the loop when nothing before it is null, whatever
    comes after it. *)
Lemma map_items_empty_first s (pre : list ref) r (post : list ref) vb :
  Forall (fun r' => is_Some (heap s !! r')) pre ->
  heap s !! r = Some vb -> has_empty_array vb = true ->
  for_each (pre ++ r :: post) map_item s = (Throws out_of_range, s).
Proof.
  intros Hpre Hvb Hempty. induction Hpre as [| r' pre' [vb' Hvb'] _ IH]; simpl.
  - apply bind_Throws. by eapply map_item_empty.
  - destruct (map_item_reads s r' vb' Hvb') as [[std Hstd] | Hthrow].
    2:{ by apply bind_Throws. }
    rewrite (bind_Returns _ _ _ _ _ Hstd).
    by apply bind_Throws.
Qed.

(** C10, as amended.  On a live instance, when an entry of the two lists
    refers to a [ValueBuffer] with an array without elements (as every
    buffer of size 0 has) and no entry before it, inputs before outputs, is
    null, [ForwardPass] throws [IndexOutOfRangeException], and the state is
    as before: the engine was not called.  What comes after that entry does
    not matter. *)
Theorem ForwardPass_empty_buffer s (eval : Engine) (inputs outputs : list ref)
    (pre : list ref) r (post : list ref) vb :
  m_eval s = Some eval ->
  inputs ++ outputs = pre ++ r :: post ->
  Forall (fun r' => is_Some (heap s !! r')) pre ->
  heap s !! r = Some vb ->
  has_empty_array vb = true ->
  ForwardPass inputs outputs s = (Throws out_of_range, s).
Proof.
  intros Hlive Hsplit Hpre Hvb Hempty.
  unfold ForwardPass.
  rewrite (bind_Returns get _ s s s eq_refl). rewrite Hlive.
  assert (Hbody : forall k,
    bind (for_each inputs map_item)
      (fun stdInputs => bind (for_each outputs map_item) (k stdInputs)) s =
    (Throws out_of_range, s) :> Outcome unit * State).
  { intros k. apply app_eq_app in Hsplit as [l [[Hin Hout] | [Hin Hout]]].
    - destruct l as [| r' l'].
      + rewrite app_nil_r in Hin. subst inputs. simpl in Hout. subst outputs.
        destruct (map_items_read s pre Hpre) as [[stdInputs Hstd] | Hthrow].
        2:{ by apply bind_Throws. }
        rewrite (bind_Returns _ _ _ _ _ Hstd).
        apply bind_Throws.
        by apply (map_items_empty_first s [] r post vb).
      + injection Hout as <- ->. subst inputs.
        apply bind_Throws. by eapply map_items_empty_first.
    - subst pre outputs. apply Forall_app in Hpre as [Hinputs Hl].
      destruct (map_items_read s inputs Hinputs) as [[stdInputs Hstd] | Hthrow].
      2:{ by apply bind_Throws. }
      rewrite (bind_Returns _ _ _ _ _ Hstd).
      apply bind_Throws. by eapply map_items_empty_first. }
  unfold try_catch_managed. rewrite Hbody. reflexivity.
Qed.

(** ** What the schema queries copy *)

(** Of the four fields of a native layout, three reach the managed one: the
    name (up to its first NUL), the data type and the element count (as an
    [int]).  The storage kind of the managed layout is the one it was
    allocated with. *)
Lemma convert_layout_fields (lay : Native.VariableLayout) s (layout : VariableLayout) s' :
  convert_layout lay s = (Returns layout, s') ->
  s' = s /\ copies lay layout.
Proof.
  unfold convert_layout, GetDataType, bind, ret, throw, copies.
  destruct (Z.eqb_spec (Native.m_dataType lay) (DataType.to_int DataType.Float32)) as [H32 | _].
  - intros [= <- <-]. by repeat split.
  - destruct (Z.eqb_spec (Native.m_dataType lay) (DataType.to_int DataType.Float64)) as [H64 | _].
    + intros [= <- <-]. by repeat split.
    + discriminate.
Qed.

(** A schema that is returned has one layout per native layout, in the
    native order. *)
Lemma convert_layouts_fields (layouts : Native.VariableSchema) s
    (schema : VariableSchema) s' :
  for_each layouts convert_layout s = (Returns schema, s') ->
  s' = s /\ Forall2 copies layouts schema.
Proof.
  revert s schema s'. induction layouts as [| lay rest IH]; intros s schema s'; simpl.
  - intros [= <- <-]. by split.
  - intros Hrun.
    apply bind_Returns_inv in Hrun as (layout & s1 & Hhead & Hrun).
    apply bind_Returns_inv in Hrun as (schema' & s2 & Htail & Hret).
    injection Hret as <- <-.
    apply convert_layout_fields in Hhead as [-> Hcopies].
    apply IH in Htail as [-> Hrest].
    split; [reflexivity | by constructor].
Qed.

Lemma GetInputSchema_fields s (eval eval' : Engine) (layouts : Native.VariableSchema)
    (schema : VariableSchema) s' :
  m_eval s = Some eval ->
  Native.GetInputSchema eval = (eval', Native.returns layouts) ->
  GetInputSchema s = (Returns schema, s') ->
  Forall2 copies layouts schema.
Proof.
  intros Hlive Hnative. unfold GetInputSchema.
  rewrite (bind_Returns get _ s s s eq_refl). rewrite Hlive.
  intros Hrun. apply bind_Returns_inv in Hrun as (layouts' & s1 & Hinvoke & Hrun).
  unfold invoke in Hinvoke. rewrite Hnative in Hinvoke. injection Hinvoke as <- <-.
  by apply convert_layouts_fields in Hrun as [_ Hcopies].
Qed.

Lemma GetOutputSchema_fields s (eval eval' : Engine) (layouts : Native.VariableSchema)
    (schema : VariableSchema) s' :
  m_eval s = Some eval ->
  Native.GetOutputSchema eval = (eval', Native.returns layouts) ->
  GetOutputSchema s = (Returns schema, s') ->
  Forall2 copies layouts schema.
Proof.
  intros Hlive Hnative. unfold GetOutputSchema.
  rewrite (bind_Returns get _ s s s eq_refl). rewrite Hlive.
  intros Hrun. apply bind_Returns_inv in Hrun as (layouts' & s1 & Hinvoke & Hrun).
  unfold invoke in Hinvoke. rewrite Hnative in Hinvoke. injection Hinvoke as <- <-.
  by apply convert_layouts_fields in Hrun as [_ Hcopies].
Qed.

(** The converter for the storage kind exists and would carry every kind
    over; no method calls it. *)
Lemma GetStorageType_converts (kind : StorageType.t) s :
  GetStorageType (StorageType.to_int kind) s = (Returns kind, s).
Proof. by destruct kind. Qed.

(** ** Native exceptions: translated, or not *)

Lemma outputs_marshalled (outputs : list string) s :
  for_each outputs (fun output => ret output) s = (Returns outputs, s).
Proof.
  induction outputs as [| output rest IH]; simpl.
  - reflexivity.
  - rewrite bind_ret_l. by rewrite (bind_Returns _ _ _ _ _ IH).
Qed.

(** [CreateNetwork] catches what the engine throws and rethrows it
    translated. *)
Lemma CreateNetwork_translates (networkDescription : string) s (eval eval' : Engine)
    (ex : Native.exception) :
  m_eval s = Some eval ->
  Native.CreateNetwork networkDescription eval = (eval', Native.throws ex) ->
  (CreateNetwork networkDescription s).1 = Throws (GetCustomException ex).
Proof.
  intros Hlive Hthrows. unfold CreateNetwork.
  rewrite (bind_Returns get _ s s s eq_refl). rewrite Hlive.
  unfold try_catch, invoke. by rewrite Hthrows.
Qed.

(** [StartForwardEvaluation] has no handler: what the engine throws leaves
    the method as it is. *)
Lemma StartForwardEvaluation_passes_on (outputs : list string) s (eval eval' : Engine)
    (ex : Native.exception) :
  m_eval s = Some eval ->
  Native.StartForwardEvaluation outputs eval = (eval', Native.throws ex) ->
  (StartForwardEvaluation outputs s).1 = NativeThrow ex.
Proof.
  intros Hlive Hthrows. unfold StartForwardEvaluation.
  rewrite (bind_Returns get _ s s s eq_refl). rewrite Hlive.
  rewrite (bind_Returns _ _ _ _ _ (outputs_marshalled outputs s)).
  unfold invoke. by rewrite Hthrows.
Qed.

(** ** Construction *)

Lemma constructor_library_missing (funcName : string) s :
  LoadLibrary dllname = None ->
  IEvaluateModelExtendedManaged LoadLibrary GetProcAddress funcName s =
    (Throws (gcnew CNTKException "Cannot find library: evaldll.dll" None), s).
Proof. intros Hload. unfold IEvaluateModelExtendedManaged. by rewrite Hload. Qed.

Lemma constructor_factory_throws (funcName : string) s (hModule : HMODULE)
    (ex : Native.exception) :
  LoadLibrary dllname = Some hModule ->
  GetProcAddress hModule funcName = Some (Native.throws ex) ->
  (IEvaluateModelExtendedManaged LoadLibrary GetProcAddress funcName s).1 =
    Throws (gcnew CNTKException (Native.what ex) None).
Proof.
  intros Hload Hproc. unfold IEvaluateModelExtendedManaged. rewrite Hload.
  unfold try_catch, call_getEvalProc. by rewrite Hproc.
Qed.

(** The address [GetProcAddress] returns is called unchecked. *)
Lemma constructor_symbol_missing (funcName : string) s (hModule : HMODULE) :
  LoadLibrary dllname = Some hModule ->
  GetProcAddress hModule funcName = None ->
  IEvaluateModelExtendedManaged LoadLibrary GetProcAddress funcName s = (NullCall, s).
Proof.
  intros Hload Hproc. unfold IEvaluateModelExtendedManaged. rewrite Hload.
  unfold try_catch, call_getEvalProc. by rewrite Hproc.
Qed.

End Properties.

(** * The properties at concrete inputs *)

(** A disposed instance: a live one after [Dispose]. *)
Lemma use_after_teardown_witness :
  m_eval (teardown by_Dispose (live well_behaved)).2 = None /\
  ((forall networkDescription,
      CreateNetwork networkDescription (teardown by_Dispose (live well_behaved)).2 =
        (Throws disposed, (teardown by_Dispose (live well_behaved)).2)) /\
   GetInputSchema (teardown by_Dispose (live well_behaved)).2 =
     (Throws disposed, (teardown by_Dispose (live well_behaved)).2) /\
   GetOutputSchema (teardown by_Dispose (live well_behaved)).2 =
     (Throws disposed, (teardown by_Dispose (live well_behaved)).2) /\
   (forall outputs,
      StartForwardEvaluation outputs (teardown by_Dispose (live well_behaved)).2 =
        (Throws disposed, (teardown by_Dispose (live well_behaved)).2)) /\
   (forall inputs outputs,
      ForwardPass inputs outputs (teardown by_Dispose (live well_behaved)).2 =
        (Throws disposed, (teardown by_Dispose (live well_behaved)).2))).
Proof.
  split.
  - reflexivity.
  - apply (use_after_teardown (teardown by_Dispose (live well_behaved)).2). reflexivity.
Defined.

(** C3, at a model with one dense input and one dense output: the engine
    reports the storage kind [Dense] for both, and the schemas the wrapper
    returns say [Undetermined]. *)
Theorem schema_drops_storage_kind :
  on_GetInputSchema well_behaved = Native.returns [features] /\
  on_GetOutputSchema well_behaved = Native.returns [scores] /\
  Native.m_storageType features = StorageType.to_int StorageType.Dense /\
  Native.m_storageType scores = StorageType.to_int StorageType.Dense /\
  (GetInputSchema (live well_behaved)).1 =
    Returns [{| m_name := "features";
                m_dataType := DataType.Float32;
                m_storageType := StorageType.Undetermined;
                m_numElements := 4 |}] /\
  (GetOutputSchema (live well_behaved)).1 =
    Returns [{| m_name := "scores";
                m_dataType := DataType.Float32;
                m_storageType := StorageType.Undetermined;
                m_numElements := 2 |}].
Proof. repeat split. Qed.

(** C4, where the library loads and does not export the factory: the
    constructor throws nothing, it calls through the null pointer.  (A
    missing library and a throwing factory do give [CNTKException].) *)
Theorem constructor_calls_null_factory :
  IEvaluateModelExtendedManagedF (ElemType := Z) library_found no_symbol
    (fresh_instance [] []) =
    (NullCall, fresh_instance [] []) /\
  IEvaluateModelExtendedManagedF (ElemType := Z) no_library no_symbol
    (fresh_instance [] []) =
    (Throws (gcnew CNTKException "Cannot find library: evaldll.dll" None),
     fresh_instance [] []) /\
  (IEvaluateModelExtendedManagedF (ElemType := Z) library_found factory_throws
     (fresh_instance [] [])).1 =
    Throws (gcnew CNTKException "bad allocation" None).
Proof. repeat split. Qed.

(** C5, where the engine rejects the output names: the C++ exception leaves
    [StartForwardEvaluation] untranslated; no managed exception carrying its
    message is thrown.  ([CreateNetwork] translates the same exception.) *)
Theorem StartForwardEvaluation_lets_native_exception_escape :
  on_StartForwardEvaluation rejecting = Native.throws unknown_node /\
  (StartForwardEvaluation ["scores"] (live rejecting)).1 = NativeThrow unknown_node /\
  GetCustomException unknown_node =
    gcnew CNTKInvalidArgumentException "node not found" (Some "[CALL STACK]").
Proof. repeat split. Qed.

(** C6 as stated fails: a negative maximum length makes
    [CreateBuffers(maxLengths)] throw; a product that does not fit an [int]
    wraps around, here to a buffer of size 0; and a negative element count
    makes [CreateBuffers()] throw. *)
Lemma CreateBuffers_sizes_counterexample :
  CreateBuffers 0%Z [layout_of 1] [(-1)%Z] (live well_behaved) =
    (Throws (gcnew OverflowException "" None), live well_behaved) /\
  CreateBuffers 0%Z [layout_of 65536] [65536%Z] (live well_behaved) =
    (Returns [0], with_heap (live well_behaved) [blank 0%Z 0]) /\
  CreateBuffers_min 0%Z [layout_of (-1)] (live well_behaved) =
    (Throws (gcnew OverflowException "" None), live well_behaved).
Proof. repeat split. Qed.

(** A schema of two entries with counts 2 and 3, and maximum lengths 4
    and 5. *)
Lemma CreateBuffers_sizes_witness :
  (exists buffers,
     CreateBuffers_min 0%Z [layout_of 2; layout_of 3] (live well_behaved) =
       (Returns [0; 1], with_heap (live well_behaved) buffers) /\
     Forall2 (fun vb layout => sized vb (m_numElements layout)) buffers
       [layout_of 2; layout_of 3]) /\
  (exists buffers,
     CreateBuffers 0%Z [layout_of 2; layout_of 3] [4%Z; 5%Z] (live well_behaved) =
       (Returns [0; 1], with_heap (live well_behaved) buffers) /\
     Forall2 (fun vb p => sized vb (m_numElements p.1 * p.2)) buffers
       [(layout_of 2, 4%Z); (layout_of 3, 5%Z)]).
Proof.
  destruct (CreateBuffers_sizes 0%Z [layout_of 2; layout_of 3] (live well_behaved))
    as [Hmin Hmax].
  split.
  - apply Hmin. repeat constructor; simpl; lia.
  - apply (Hmax [4%Z; 5%Z]); [reflexivity | repeat constructor; simpl; lia].
Defined.

(** Two entries, one maximum length. *)
Lemma CreateBuffers_length_mismatch_witness :
  CreateBuffers 0%Z [layout_of 2; layout_of 3] [4%Z] (live well_behaved) =
    (Throws (gcnew CNTKRuntimeException "Expected max lengths for all variables."
               (Some EmptyString)), live well_behaved).
Proof.
  apply (CreateBuffers_length_mismatch 0%Z [layout_of 2; layout_of 3] [4%Z]
           (live well_behaved)).
  simpl. lia.
Defined.

(** [Dispose] twice, then the collector. *)
Lemma teardown_idempotent_witness :
  teardowns [by_Dispose; by_Dispose; by_collector] (live well_behaved) =
    (Returns tt,
     {| m_eval := None; heap := []; native_calls := [call_Destroy] |}) /\
  Destroy_count
    (native_calls (teardowns [by_Dispose; by_Dispose; by_collector] (live well_behaved)).2) = 1.
Proof.
  apply (teardown_idempotent [by_Dispose; by_Dispose; by_collector] (live well_behaved)
           well_behaved).
  - reflexivity.
  - simpl. lia.
Defined.

(** A buffer of size 3. *)
Lemma ValueBuffer_shape_witness :
  (exists vb, heap (new_ValueBuffer 0%Z 3 (live well_behaved)).2 !! 0 = Some vb /\
              sized vb 3) /\
  (forall ops : list Operation,
     exists vb,
       heap (run_all 0%Z library_found factory_ok ops
               (new_ValueBuffer 0%Z 3 (live well_behaved)).2) !! 0 = Some vb /\
       sized vb 3).
Proof.
  apply (ValueBuffer_shape 0%Z library_found factory_ok 3 (live well_behaved) 0
           (new_ValueBuffer 0%Z 3 (live well_behaved)).2).
  reflexivity.
Defined.

(** C10 as stated fails: the output is a buffer of size 0, and the input,
    which comes first, is null. *)
Lemma ForwardPass_empty_buffer_counterexample :
  m_eval two_buffers = Some well_behaved /\
  heap two_buffers !! 1 = Some (blank 0%Z 0) /\
  has_empty_array (blank 0%Z 0) = true /\
  ForwardPass [7] [1] two_buffers =
    (Throws (gcnew NullReferenceException "" None), two_buffers).
Proof. repeat split. Qed.

(** An input of size 2, then one of size 0, and a null output after them. *)
Lemma ForwardPass_empty_buffer_witness :
  ForwardPass [0; 1] [7] two_buffers = (Throws out_of_range, two_buffers).
Proof.
  apply (ForwardPass_empty_buffer two_buffers well_behaved [0; 1] [7] [0] 1 [7]
           (blank 0%Z 0)).
  - reflexivity.
  - reflexivity.
  - repeat constructor. by eexists.
  - reflexivity.
  - reflexivity.
Defined.

(** * Further properties *)

Section Further.

Context {ElemType : Type} (zero : ElemType).
Context {Engine : Type} `{!Native.IEvaluateModelExtended ElemType Engine}.
Context {HMODULE : Type}.
Variable LoadLibrary : string -> option HMODULE.
Variable GetProcAddress : HMODULE -> string -> option (Native.result Engine).

Local Abbreviation State := (State ElemType Engine).
Local Abbreviation M := (M ElemType Engine).

Implicit Types (s : State) (r : ref) (vb : ValueBuffer ElemType).

(** ** More on the monad *)

Lemma bind_NativeThrow {A B : Type} (m : M A) (k : A -> M B) s (ex : Native.exception) s1 :
  m s = (NativeThrow ex, s1) -> bind m k s = (NativeThrow ex, s1).
Proof. intros Hm. unfold bind. by rewrite Hm. Qed.

Lemma invoke_returns {A : Type} (eval eval' : Engine) (c : NativeCall ElemType)
    (f : Engine -> Engine * Native.result A) (a : A) s :
  f eval = (eval', Native.returns a) ->
  invoke eval c f s = (Returns a, after_call s eval' c).
Proof. intros Hf. unfold invoke. by rewrite Hf. Qed.

Lemma invoke_throws {A : Type} (eval eval' : Engine) (c : NativeCall ElemType)
    (f : Engine -> Engine * Native.result A) (ex : Native.exception) s :
  f eval = (eval', Native.throws ex) ->
  invoke eval c f s = (NativeThrow ex, after_call s eval' c).
Proof. intros Hf. unfold invoke. by rewrite Hf. Qed.

(** A loop whose body only reads and returns on every item returns, item
    for item. *)
Lemma for_each_all_return {A B : Type} (P : A -> B -> Prop) (f : A -> M B)
    (l : list A) s :
  (forall a, a ∈ l -> exists b, f a s = (Returns b, s) /\ P a b) ->
  exists bs, for_each l f s = (Returns bs, s) /\ Forall2 P l bs.
Proof.
  induction l as [| a rest IH]; intros Hall; simpl.
  - exists []. by split.
  - destruct (Hall a) as (b & Hb & HP); [by left |].
    destruct IH as (bs & Hbs & HPs); [intros a' Hin; apply Hall; by right |].
    exists (b :: bs). split; [| by constructor].
    rewrite (bind_Returns _ _ _ _ _ Hb). by rewrite (bind_Returns _ _ _ _ _ Hbs).
Qed.

(** A loop whose body only reads ends at the first item on which the body
    throws, with that exception. *)
Lemma for_each_first_throw {A B : Type} (f : A -> M B) (pre : list A) (x : A)
    (post : list A) s (e : Exception) :
  (forall a, a ∈ pre -> exists b, f a s = (Returns b, s)) ->
  f x s = (Throws e, s) ->
  for_each (pre ++ x :: post) f s = (Throws e, s).
Proof.
  intros Hpre Hx. induction pre as [| a rest IH]; simpl.
  - by apply bind_Throws.
  - destruct (Hpre a) as (b & Hb); [by left |].
    rewrite (bind_Returns _ _ _ _ _ Hb).
    apply bind_Throws, IH. intros a' Hin. apply Hpre. by right.
Qed.

(** ** The schema queries *)

Lemma convert_layout_known (lay : Native.VariableLayout) s :
  known_DataType (Native.m_dataType lay) = true ->
  exists layout, convert_layout lay s = (Returns layout, s) /\ copies lay layout.
Proof.
  unfold known_DataType. intros Hknown.
  apply orb_true_iff in Hknown as [H32 | H64].
  - unfold convert_layout, GetDataType, bind. rewrite H32.
    eexists. split; [reflexivity |].
    apply Z.eqb_eq in H32. by repeat split.
  - unfold convert_layout, GetDataType, bind. rewrite H64.
    destruct (Native.m_dataType lay =? DataType.to_int DataType.Float32)%Z eqn:H32.
    + eexists. split; [reflexivity |]. apply Z.eqb_eq in H32. by repeat split.
    + eexists. split; [reflexivity |]. apply Z.eqb_eq in H64. by repeat split.
Qed.

Lemma convert_layout_unknown (lay : Native.VariableLayout) s :
  known_DataType (Native.m_dataType lay) = false ->
  convert_layout lay s = (Throws (unknown_DataType (Native.m_dataType lay)), s).
Proof.
  unfold known_DataType. intros Hunknown.
  apply orb_false_iff in Hunknown as [H32 H64].
  unfold convert_layout, GetDataType, bind. by rewrite H32, H64.
Qed.

Lemma convert_known_layouts (layouts : Native.VariableSchema) s :
  Forall (fun lay => known_DataType (Native.m_dataType lay) = true) layouts ->
  exists schema,
    for_each layouts convert_layout s = (Returns schema, s) /\
    Forall2 copies layouts schema.
Proof.
  intros Hknown. apply for_each_all_return.
  intros lay Hin. apply convert_layout_known.
  by eapply Forall_forall in Hknown.
Qed.

Lemma convert_unknown_layout (pre : Native.VariableSchema) (bad : Native.VariableLayout)
    (post : Native.VariableSchema) s :
  Forall (fun lay => known_DataType (Native.m_dataType lay) = true) pre ->
  known_DataType (Native.m_dataType bad) = false ->
  for_each (pre ++ bad :: post) convert_layout s =
    (Throws (unknown_DataType (Native.m_dataType bad)), s).
Proof.
  intros Hknown Hbad. apply for_each_first_throw.
  - intros lay Hin.
    destruct (convert_layout_known lay s) as (layout & Hlayout & _);
      [by eapply Forall_forall in Hknown | by exists layout].
  - by apply convert_layout_unknown.
Qed.

(** X1.  On a live instance whose engine reports only layouts of data type
    [Float32] or [Float64], [GetInputSchema] and [GetOutputSchema] return:
    the schema has one layout per native layout, in the native order, each
    with the name up to its first NUL, the data type, and the element count
    as an [int], and with storage kind [Undetermined].  The engine was called
    once, and the heap is as before. *)
Theorem schema_queries_return s (eval : Engine) :
  m_eval s = Some eval ->
  (forall eval' layouts,
     Native.GetInputSchema eval = (eval', Native.returns layouts) ->
     Forall (fun lay => known_DataType (Native.m_dataType lay) = true) layouts ->
     exists schema,
       GetInputSchema s = (Returns schema, after_call s eval' call_GetInputSchema) /\
       Forall2 copies layouts schema) /\
  (forall eval' layouts,
     Native.GetOutputSchema eval = (eval', Native.returns layouts) ->
     Forall (fun lay => known_DataType (Native.m_dataType lay) = true) layouts ->
     exists schema,
       GetOutputSchema s = (Returns schema, after_call s eval' call_GetOutputSchema) /\
       Forall2 copies layouts schema).
Proof.
  intros Hlive. split; intros eval' layouts Hnative Hknown.
  - unfold GetInputSchema.
    rewrite (bind_Returns get _ s s s eq_refl). rewrite Hlive.
    rewrite (bind_Returns _ _ _ _ _ (invoke_returns _ _ _ _ _ s Hnative)).
    by apply convert_known_layouts.
  - unfold GetOutputSchema.
    rewrite (bind_Returns get _ s s s eq_refl). rewrite Hlive.
    rewrite (bind_Returns _ _ _ _ _ (invoke_returns _ _ _ _ _ s Hnative)).
    by apply convert_known_layouts.
Qed.

(** X2.  On a live instance, when the first native layout of a data type
    other than [Float32] and [Float64] is reached, [GetInputSchema] and
    [GetOutputSchema] throw [CNTKRuntimeException] with the message that
    names the value of that data type; the engine was called once. *)
Theorem schema_queries_unknown_data_type s (eval : Engine)
    (pre : Native.VariableSchema) (bad : Native.VariableLayout)
    (post : Native.VariableSchema) :
  m_eval s = Some eval ->
  Forall (fun lay => known_DataType (Native.m_dataType lay) = true) pre ->
  known_DataType (Native.m_dataType bad) = false ->
  (forall eval',
     Native.GetInputSchema eval = (eval', Native.returns (pre ++ bad :: post)) ->
     GetInputSchema s =
       (Throws (unknown_DataType (Native.m_dataType bad)),
        after_call s eval' call_GetInputSchema)) /\
  (forall eval',
     Native.GetOutputSchema eval = (eval', Native.returns (pre ++ bad :: post)) ->
     GetOutputSchema s =
       (Throws (unknown_DataType (Native.m_dataType bad)),
        after_call s eval' call_GetOutputSchema)).
Proof.
  intros Hlive Hknown Hbad. split; intros eval' Hnative.
  - unfold GetInputSchema.
    rewrite (bind_Returns get _ s s s eq_refl). rewrite Hlive.
    rewrite (bind_Returns _ _ _ _ _ (invoke_returns _ _ _ _ _ s Hnative)).
    by apply convert_unknown_layout.
  - unfold GetOutputSchema.
    rewrite (bind_Returns get _ s s s eq_refl). rewrite Hlive.
    rewrite (bind_Returns _ _ _ _ _ (invoke_returns _ _ _ _ _ s Hnative)).
    by apply convert_unknown_layout.
Qed.

(** X3.  On a live instance, a C++ exception the engine throws from its
    schema query leaves [GetInputSchema] and [GetOutputSchema] as it is:
    neither method has a handler.  The engine was called once. *)
Theorem schema_queries_engine_exception s (eval : Engine) :
  m_eval s = Some eval ->
  (forall eval' ex,
     Native.GetInputSchema eval = (eval', Native.throws ex) ->
     GetInputSchema s = (NativeThrow ex, after_call s eval' call_GetInputSchema)) /\
  (forall eval' ex,
     Native.GetOutputSchema eval = (eval', Native.throws ex) ->
     GetOutputSchema s = (NativeThrow ex, after_call s eval' call_GetOutputSchema)).
Proof.
  intros Hlive. split; intros eval' ex Hnative.
  - unfold GetInputSchema.
    rewrite (bind_Returns get _ s s s eq_refl). rewrite Hlive.
    apply bind_NativeThrow. by apply invoke_throws.
  - unfold GetOutputSchema.
    rewrite (bind_Returns get _ s s s eq_refl). rewrite Hlive.
    apply bind_NativeThrow. by apply invoke_throws.
Qed.

(** ** Names and counts *)

Lemma c_str_NUL_free (name : string) : NUL_free name = true -> c_str name = name.
Proof.
  induction name as [| c rest IH]; simpl; [done |].
  intros Hfree. apply andb_true_iff in Hfree as [Hc Hrest].
  apply negb_true_iff in Hc. rewrite Hc. by rewrite IH.
Qed.

Lemma c_str_cut (pre rest : string) :
  NUL_free pre = true -> c_str (pre +:+ String Ascii.zero rest) = pre.
Proof.
  induction pre as [| c pre' IH]; simpl; [done |].
  intros Hfree. apply andb_true_iff in Hfree as [Hc Hrest].
  apply negb_true_iff in Hc. rewrite Hc. by rewrite IH.
Qed.

Lemma copies_repeats (lay : Native.VariableLayout) (layout : VariableLayout) :
  fits lay -> copies lay layout -> repeats lay layout.
Proof.
  intros (_ & Hname & Hcount) (Hn & Hd & He & _).
  repeat split; [| assumption |].
  - by rewrite Hn, c_str_NUL_free.
  - rewrite He. apply int_of_small. lia.
Qed.

Lemma convert_fitting_layouts (layouts : Native.VariableSchema) s :
  Forall fits layouts ->
  exists schema,
    for_each layouts convert_layout s = (Returns schema, s) /\
    Forall2 repeats layouts schema.
Proof.
  intros Hfits. apply for_each_all_return.
  intros lay Hin. eapply Forall_forall in Hfits; [| exact Hin].
  destruct (convert_layout_known lay s) as (layout & Hlayout & Hcopies);
    [apply Hfits |].
  exists layout. split; [assumption | by apply copies_repeats].
Qed.

(** X4.  The conversion of a name stops at the first NUL character: a name
    without NUL is kept as it is, and of a name with one, the part before
    the first NUL is kept. *)
Theorem c_str_truncates (pre rest : string) :
  NUL_free pre = true ->
  c_str pre = pre /\ c_str (pre +:+ String Ascii.zero rest) = pre.
Proof.
  intros Hfree. split; [by apply c_str_NUL_free | by apply c_str_cut].
Qed.

(** X5.  On a live instance whose engine reports layouts of known data
    type, with names without NUL and element counts below 2^31,
    [GetInputSchema] and [GetOutputSchema] return a schema that repeats
    name, data type and element count of every native layout, in order. *)
Theorem schema_queries_repeat s (eval : Engine) :
  m_eval s = Some eval ->
  (forall eval' layouts,
     Native.GetInputSchema eval = (eval', Native.returns layouts) ->
     Forall fits layouts ->
     exists schema,
       GetInputSchema s = (Returns schema, after_call s eval' call_GetInputSchema) /\
       Forall2 repeats layouts schema) /\
  (forall eval' layouts,
     Native.GetOutputSchema eval = (eval', Native.returns layouts) ->
     Forall fits layouts ->
     exists schema,
       GetOutputSchema s = (Returns schema, after_call s eval' call_GetOutputSchema) /\
       Forall2 repeats layouts schema).
Proof.
  intros Hlive. split; intros eval' layouts Hnative Hfits.
  - unfold GetInputSchema.
    rewrite (bind_Returns get _ s s s eq_refl). rewrite Hlive.
    rewrite (bind_Returns _ _ _ _ _ (invoke_returns _ _ _ _ _ s Hnative)).
    by apply convert_fitting_layouts.
  - unfold GetOutputSchema.
    rewrite (bind_Returns get _ s s s eq_refl). rewrite Hlive.
    rewrite (bind_Returns _ _ _ _ _ (invoke_returns _ _ _ _ _ s Hnative)).
    by apply convert_fitting_layouts.
Qed.

(** ** Calls that go straight through *)

(** X6.  On a live instance, [StartForwardEvaluation] hands the engine the
    names it was given, all of them and in the same order, calls it once,
    and ends as the engine's call ends: it returns when the engine returns,
    and a C++ exception of the engine leaves it untranslated. *)
Theorem StartForwardEvaluation_forwards (outputs : list string) s (eval : Engine) :
  m_eval s = Some eval ->
  StartForwardEvaluation outputs s =
    (outcome_of (Native.StartForwardEvaluation outputs eval).2,
     after_call s (Native.StartForwardEvaluation outputs eval).1
       (call_StartForwardEvaluation outputs)).
Proof.
  intros Hlive. unfold StartForwardEvaluation.
  rewrite (bind_Returns get _ s s s eq_refl). rewrite Hlive.
  rewrite (bind_Returns _ _ _ _ _ (outputs_marshalled outputs s)).
  unfold invoke. by destruct (Native.StartForwardEvaluation outputs eval).
Qed.

(** X7.  On a live instance, [CreateNetwork] calls the engine once with the
    description it was given, returns when the engine returns, and when the
    engine throws a C++ exception, throws the managed exception
    [GetCustomException] makes of it. *)
Theorem CreateNetwork_outcome (networkDescription : string) s (eval : Engine) :
  m_eval s = Some eval ->
  CreateNetwork networkDescription s =
    (translated (Native.CreateNetwork networkDescription eval).2,
     after_call s (Native.CreateNetwork networkDescription eval).1
       (call_CreateNetwork networkDescription)).
Proof.
  intros Hlive. unfold CreateNetwork.
  rewrite (bind_Returns get _ s s s eq_refl). rewrite Hlive.
  unfold try_catch, invoke.
  by destruct (Native.CreateNetwork networkDescription eval) as [eval' [[] | ex]].
Qed.

(** ** [ForwardPass] *)

Lemma map_item_pinnable s r :
  pinnable (heap s) r = true ->
  exists vb, heap s !! r = Some vb /\ has_empty_array vb = false /\
             map_item r s = (Returns (describe vb), s).
Proof.
  unfold pinnable. destruct (heap s !! r) as [vb |] eqn:Hvb; [| discriminate].
  intros Hfull. apply negb_true_iff in Hfull.
  exists vb. repeat split; [assumption |].
  unfold map_item, bind, deref. rewrite Hvb.
  unfold has_empty_array in Hfull. unfold describe.
  destruct (m_buffer vb), (m_indices vb), (m_colIndices vb);
    try discriminate Hfull; reflexivity.
Qed.

Lemma map_item_not_pinnable s r :
  pinnable (heap s) r = false ->
  map_item r s = (Throws (not_pinnable (heap s) r), s).
Proof.
  unfold pinnable, not_pinnable, map_item, bind, deref.
  destruct (heap s !! r) as [vb |] eqn:Hvb; [| reflexivity].
  intros Hempty. apply negb_false_iff in Hempty.
  unfold has_empty_array in Hempty.
  destruct (m_buffer vb), (m_indices vb), (m_colIndices vb);
    try discriminate Hempty; reflexivity.
Qed.

Lemma map_items_described s (items : list ref) (vbs : list (ValueBuffer ElemType)) :
  Forall2 (fun r vb => heap s !! r = Some vb /\ has_empty_array vb = false) items vbs ->
  for_each items map_item s = (Returns (describe <$> vbs), s).
Proof.
  induction 1 as [| r vb items vbs [Hvb Hfull] _ IH]; simpl.
  - reflexivity.
  - destruct (map_item_pinnable s r) as (vb' & Hvb' & _ & Hrun).
    { unfold pinnable. by rewrite Hvb, Hfull. }
    rewrite Hvb in Hvb'. injection Hvb' as <-.
    rewrite (bind_Returns _ _ _ _ _ Hrun). by rewrite (bind_Returns _ _ _ _ _ IH).
Qed.

Lemma map_items_pinnable s (items : list ref) :
  Forall (fun r => pinnable (heap s) r = true) items ->
  exists stds, for_each items map_item s = (Returns stds, s).
Proof.
  intros Hall.
  destruct (for_each_all_return (fun _ _ => True) map_item items s) as (stds & Hrun & _).
  - intros r Hin. eapply Forall_forall in Hall; [| exact Hin].
    destruct (map_item_pinnable s r Hall) as (vb & _ & _ & Hrun).
    by exists (describe vb).
  - by exists stds.
Qed.

Lemma map_items_first_not_pinnable s (pre : list ref) r (post : list ref) :
  Forall (fun r => pinnable (heap s) r = true) pre ->
  pinnable (heap s) r = false ->
  for_each (pre ++ r :: post) map_item s = (Throws (not_pinnable (heap s) r), s).
Proof.
  intros Hpre Hr. apply for_each_first_throw.
  - intros r' Hin. eapply Forall_forall in Hpre; [| exact Hin].
    destruct (map_item_pinnable s r' Hpre) as (vb & _ & _ & Hrun).
    by exists (describe vb).
  - by apply map_item_not_pinnable.
Qed.

Lemma ForwardPass_described s (eval : Engine) (inputs outputs : list ref)
    (ins outs : list (ValueBuffer ElemType)) :
  m_eval s = Some eval ->
  Forall2 (fun r vb => heap s !! r = Some vb /\ has_empty_array vb = false) inputs ins ->
  Forall2 (fun r vb => heap s !! r = Some vb /\ has_empty_array vb = false) outputs outs ->
  ForwardPass inputs outputs s =
    (translated (Native.ForwardPass (describe <$> ins) (describe <$> outs) eval).2,
     {| m_eval := Some (Native.ForwardPass (describe <$> ins) (describe <$> outs) eval).1.1;
        heap := foldl (apply_write inputs outputs) (heap s)
                  (Native.ForwardPass (describe <$> ins) (describe <$> outs) eval).1.2;
        native_calls :=
          native_calls s ++ [call_ForwardPass (describe <$> ins) (describe <$> outs)] |}).
Proof.
  intros Hlive Hins Houts. unfold ForwardPass.
  rewrite (bind_Returns get _ s s s eq_refl). rewrite Hlive.
  unfold try_catch_managed.
  rewrite (bind_Returns _ _ _ _ _ (map_items_described s inputs ins Hins)).
  rewrite (bind_Returns _ _ _ _ _ (map_items_described s outputs outs Houts)).
  unfold try_catch, invoke_ForwardPass.
  by destruct (Native.ForwardPass (describe <$> ins) (describe <$> outs) eval)
    as [[eval' writes] [[] | ex]].
Qed.

(** X8.  On a live instance, when every entry of the two lists refers to a
    buffer whose three arrays have elements, [ForwardPass] calls the engine
    once, with one description per entry and in the order of the lists; the
    i-th description is that of the i-th buffer: its three arrays, each with
    the buffer's [m_size] as size and as capacity.  It returns when the
    engine returns, and when the engine throws a C++ exception, throws the
    managed exception [GetCustomException] makes of it. *)
Theorem ForwardPass_marshals s (eval : Engine) (inputs outputs : list ref)
    (ins outs : list (ValueBuffer ElemType)) :
  m_eval s = Some eval ->
  Forall2 (fun r vb => heap s !! r = Some vb /\ has_empty_array vb = false) inputs ins ->
  Forall2 (fun r vb => heap s !! r = Some vb /\ has_empty_array vb = false) outputs outs ->
  ForwardPass inputs outputs s =
    (translated (Native.ForwardPass (describe <$> ins) (describe <$> outs) eval).2,
     {| m_eval := Some (Native.ForwardPass (describe <$> ins) (describe <$> outs) eval).1.1;
        heap := foldl (apply_write inputs outputs) (heap s)
                  (Native.ForwardPass (describe <$> ins) (describe <$> outs) eval).1.2;
        native_calls :=
          native_calls s ++ [call_ForwardPass (describe <$> ins) (describe <$> outs)] |}).
Proof. apply ForwardPass_described. Qed.

(** X9.  On a live instance, at the first entry, inputs before outputs,
    that is null or refers to a buffer with an array without elements,
    [ForwardPass] throws [NullReferenceException] for the null reference and
    [IndexOutOfRangeException] for the buffer, and the state is as before:
    the engine was not called. *)
Theorem ForwardPass_first_bad_entry s (eval : Engine) (inputs outputs : list ref)
    (pre : list ref) r (post : list ref) :
  m_eval s = Some eval ->
  inputs ++ outputs = pre ++ r :: post ->
  Forall (fun r => pinnable (heap s) r = true) pre ->
  pinnable (heap s) r = false ->
  ForwardPass inputs outputs s = (Throws (not_pinnable (heap s) r), s).
Proof.
  intros Hlive Hsplit Hpre Hr. unfold ForwardPass.
  rewrite (bind_Returns get _ s s s eq_refl). rewrite Hlive.
  assert (Hbody : forall k,
    bind (for_each inputs map_item)
      (fun stdInputs => bind (for_each outputs map_item) (k stdInputs)) s =
    (Throws (not_pinnable (heap s) r), s) :> Outcome unit * State).
  { intros k. apply app_eq_app in Hsplit as [l [[Hin Hout] | [Hin Hout]]].
    - destruct l as [| r' l'].
      + rewrite app_nil_r in Hin. subst inputs. simpl in Hout. subst outputs.
        destruct (map_items_pinnable s pre Hpre) as [stds Hstds].
        rewrite (bind_Returns _ _ _ _ _ Hstds).
        apply bind_Throws.
        by apply (map_items_first_not_pinnable s [] r post).
      + injection Hout as <- ->. subst inputs.
        apply bind_Throws. by apply map_items_first_not_pinnable.
    - subst pre outputs. apply Forall_app in Hpre as [Hinputs Hl].
      destruct (map_items_pinnable s inputs Hinputs) as [stds Hstds].
      rewrite (bind_Returns _ _ _ _ _ Hstds).
      apply bind_Throws. by apply map_items_first_not_pinnable. }
  unfold try_catch_managed. by rewrite Hbody.
Qed.

(** ** What an operation leaves alone *)

Section Preserved.

Variable R : State -> State -> Prop.
Hypothesis R_refl : forall s, R s s.
Hypothesis R_trans : forall s1 s2 s3, R s1 s2 -> R s2 s3 -> R s1 s3.

Lemma preserves_ret {A : Type} (a : A) : preserves R (ret a : M A).
Proof. intros s. apply R_refl. Qed.

Lemma preserves_throw {A : Type} (e : Exception) : preserves R (throw e : M A).
Proof. intros s. apply R_refl. Qed.

Lemma preserves_get : preserves R (get : M State).
Proof. intros s. apply R_refl. Qed.

Lemma preserves_bind {A B : Type} (m : M A) (k : A -> M B) :
  preserves R m -> (forall a, preserves R (k a)) -> preserves R (bind m k).
Proof.
  intros Hm Hk s. unfold bind. specialize (Hm s).
  destruct (m s) as [[a | e | ex |] s1]; simpl in *; try assumption.
  eapply R_trans; [exact Hm | apply Hk].
Qed.

Lemma preserves_try_catch {A : Type} (m : M A) (handler : Native.exception -> M A) :
  preserves R m -> (forall ex, preserves R (handler ex)) ->
  preserves R (try_catch m handler).
Proof.
  intros Hm Hh s. unfold try_catch. specialize (Hm s).
  destruct (m s) as [[a | e | ex |] s1]; simpl in *; try assumption.
  eapply R_trans; [exact Hm | apply Hh].
Qed.

Lemma preserves_try_catch_managed {A : Type} (m : M A) (handler : Exception -> M A) :
  preserves R m -> (forall e, preserves R (handler e)) ->
  preserves R (try_catch_managed m handler).
Proof.
  intros Hm Hh s. unfold try_catch_managed. specialize (Hm s).
  destruct (m s) as [[a | e | ex |] s1]; simpl in *; try assumption.
  eapply R_trans; [exact Hm | apply Hh].
Qed.

Lemma preserves_for_each {A B : Type} (items : list A) (body : A -> M B) :
  (forall a, preserves R (body a)) -> preserves R (for_each items body).
Proof.
  intros Hbody. induction items as [| a rest IH]; simpl.
  - apply preserves_ret.
  - apply preserves_bind; [apply Hbody |]. intros b.
    apply preserves_bind; [apply IH |]. intros bs. apply preserves_ret.
Qed.

Lemma preserves_item {A : Type} (l : list A) (i : nat) : preserves R (item l i : M A).
Proof. unfold item. destruct (l !! i); [apply preserves_ret | apply preserves_throw]. Qed.

Lemma preserves_gcnew_array {A : Type} (dflt : A) (size : Z) :
  preserves R (gcnew_array dflt size : M (list A)).
Proof.
  unfold gcnew_array. destruct (size <? 0)%Z; [apply preserves_throw | apply preserves_ret].
Qed.

Lemma preserves_deref r : preserves R (deref r : M (ValueBuffer ElemType)).
Proof. intros s. unfold deref. destruct (heap s !! r); apply R_refl. Qed.

Lemma preserves_address_of_first {A : Type} (arr : list A) :
  preserves R (address_of_first arr : M unit).
Proof. destruct arr; [apply preserves_throw | apply preserves_ret]. Qed.

Lemma preserves_GetDataType (dataType : Z) : preserves R (GetDataType dataType : M DataType.t).
Proof.
  unfold GetDataType.
  destruct (dataType =? _)%Z; [apply preserves_ret |].
  destruct (dataType =? _)%Z; [apply preserves_ret | apply preserves_throw].
Qed.

End Preserved.

Lemma same_heap_refl s : same_heap s s.
Proof. reflexivity. Qed.

Lemma same_heap_trans s1 s2 s3 : same_heap s1 s2 -> same_heap s2 s3 -> same_heap s1 s3.
Proof. unfold same_heap. congruence. Qed.

Lemma same_instance_refl s : same_instance s s.
Proof. by split. Qed.

Lemma same_instance_trans s1 s2 s3 :
  same_instance s1 s2 -> same_instance s2 s3 -> same_instance s1 s3.
Proof. unfold same_instance. intros [] []. split; congruence. Qed.

Lemma stays_live_refl s : stays_live s s.
Proof. by intros Hlive. Qed.

Lemma stays_live_trans s1 s2 s3 : stays_live s1 s2 -> stays_live s2 s3 -> stays_live s1 s3.
Proof.
  intros H12 H23 Hlive.
  destruct (H12 Hlive) as [Hlive2 Hcount2].
  destruct (H23 Hlive2) as [Hlive3 Hcount3].
  split; [assumption | congruence].
Qed.

Lemma same_instance_stays_live s s' : same_instance s s' -> stays_live s s'.
Proof. intros [Heval Hlog] Hlive. by rewrite Heval, Hlog. Qed.

Lemma Destroy_count_other (log : list (NativeCall ElemType)) (c : NativeCall ElemType) :
  is_Destroy c = false -> Destroy_count (log ++ [c]) = Destroy_count log.
Proof.
  intros Hc. unfold Destroy_count. rewrite filter_app, length_app.
  rewrite filter_cons_False by (rewrite Hc; discriminate). simpl. lia.
Qed.

Lemma invoke_same_heap {A : Type} (eval : Engine) (c : NativeCall ElemType)
    (f : Engine -> Engine * Native.result A) :
  preserves same_heap (invoke eval c f).
Proof. intros s. unfold invoke. by destruct (f eval). Qed.

Lemma invoke_stays_live {A : Type} (eval : Engine) (c : NativeCall ElemType)
    (f : Engine -> Engine * Native.result A) :
  is_Destroy c = false -> preserves stays_live (invoke eval c f).
Proof.
  intros Hc s Hlive. unfold invoke. destruct (f eval) as [eval' res]. simpl.
  split; [by eexists | by apply Destroy_count_other].
Qed.

Lemma invoke_ForwardPass_stays_live (eval : Engine) (inputs outputs : list ref)
    (stdInputs stdOutputs : Native.ValueRefs ElemType) :
  preserves stays_live (invoke_ForwardPass eval inputs outputs stdInputs stdOutputs).
Proof.
  intros s Hlive. unfold invoke_ForwardPass.
  destruct (Native.ForwardPass stdInputs stdOutputs eval) as [[eval' writes] res]. simpl.
  split; [by eexists | by apply Destroy_count_other].
Qed.

Lemma call_getEvalProc_same_heap (funcName : string)
    (getEvalProc : option (Native.result Engine)) :
  preserves same_heap (call_getEvalProc funcName getEvalProc : M unit).
Proof. intros s. unfold call_getEvalProc. by destruct getEvalProc as [[eval | ex] |]. Qed.

Lemma finalizer_same_heap : preserves same_heap (finalizer : M unit).
Proof. intros s. unfold finalizer. by destruct (m_eval s). Qed.

Lemma alloc_same_instance vb : preserves same_instance (alloc vb : M ref).
Proof. intros s. by split. Qed.

Create HintDb preserved.

#[local] Hint Resolve preserves_ret preserves_throw preserves_get preserves_item
  preserves_gcnew_array preserves_deref preserves_address_of_first preserves_GetDataType
  same_heap_refl same_heap_trans same_instance_refl same_instance_trans
  stays_live_refl stays_live_trans
  invoke_same_heap invoke_stays_live invoke_ForwardPass_stays_live
  call_getEvalProc_same_heap finalizer_same_heap alloc_same_instance : preserved.

(** Walks a method body, as [keep_shapes] does, for any of the relations. *)
Ltac preserved :=
  repeat first
    [ solve [eauto with preserved]
    | match goal with
      | |- forall _, _ => intro
      | |- preserves _ (match ?x with _ => _ end) => destruct x
      end
    | progress cbn beta
    | apply preserves_bind
    | apply preserves_for_each
    | apply preserves_try_catch
    | apply preserves_try_catch_managed ].

Lemma new_ValueBuffer_same_instance (size : Z) :
  preserves same_instance (new_ValueBuffer zero size : M ref).
Proof. unfold new_ValueBuffer. preserved. Qed.

#[local] Hint Resolve new_ValueBuffer_same_instance : preserved.

Lemma CreateBuffers_same_instance (this : VariableSchema) (maxLengths : list Z) :
  preserves same_instance (CreateBuffers zero this maxLengths : M (list ref)).
Proof. unfold CreateBuffers. preserved. Qed.

Lemma CreateBuffers_min_same_instance (this : VariableSchema) :
  preserves same_instance (CreateBuffers_min zero this : M (list ref)).
Proof. unfold CreateBuffers_min. preserved. Qed.

Lemma constructor_same_heap (funcName : string) :
  preserves same_heap
    (IEvaluateModelExtendedManaged LoadLibrary GetProcAddress funcName : M unit).
Proof. unfold IEvaluateModelExtendedManaged. preserved. Qed.

Lemma CreateNetwork_same_heap (networkDescription : string) :
  preserves same_heap (CreateNetwork networkDescription).
Proof. unfold CreateNetwork. preserved. Qed.

Lemma GetInputSchema_same_heap : preserves same_heap GetInputSchema.
Proof.
  unfold GetInputSchema. preserved. Qed.

Lemma GetOutputSchema_same_heap : preserves same_heap GetOutputSchema.
Proof.
  unfold GetOutputSchema. preserved. Qed.

Lemma StartForwardEvaluation_same_heap (outputs : list string) :
  preserves same_heap (StartForwardEvaluation outputs).
Proof. unfold StartForwardEvaluation. preserved. Qed.

Lemma teardown_same_heap (how : Teardown) : preserves same_heap (teardown how : M unit).
Proof. destruct how; unfold teardown, destructor; preserved. Qed.

Lemma CreateNetwork_stays_live (networkDescription : string) :
  preserves stays_live (CreateNetwork networkDescription).
Proof. unfold CreateNetwork. preserved. Qed.

Lemma GetInputSchema_stays_live : preserves stays_live GetInputSchema.
Proof.
  unfold GetInputSchema. preserved. Qed.

Lemma GetOutputSchema_stays_live : preserves stays_live GetOutputSchema.
Proof.
  unfold GetOutputSchema. preserved. Qed.

Lemma StartForwardEvaluation_stays_live (outputs : list string) :
  preserves stays_live (StartForwardEvaluation outputs).
Proof. unfold StartForwardEvaluation. preserved. Qed.

Lemma ForwardPass_stays_live (inputs outputs : list ref) :
  preserves stays_live (ForwardPass inputs outputs).
Proof. unfold ForwardPass. preserved. Qed.

(** X10.  Only the constructor of [ValueBuffer], the two buffer factories
    and [ForwardPass] touch the managed heap: after any other operation
    (construction of an instance, [CreateNetwork], the schema queries,
    [StartForwardEvaluation], teardown), however it ends, the heap is what
    it was. *)
Theorem heap_untouched (op : Operation) s :
  touches_heap op = false ->
  heap (run zero LoadLibrary GetProcAddress op s) = heap s.
Proof.
  destruct op; try discriminate; intros _; simpl.
  - apply constructor_same_heap.
  - apply CreateNetwork_same_heap.
  - apply GetInputSchema_same_heap.
  - apply GetOutputSchema_same_heap.
  - apply StartForwardEvaluation_same_heap.
  - apply teardown_same_heap.
Qed.

(** X11.  The constructor of [ValueBuffer] and the two buffer factories
    have nothing to do with the instance: however they end, the native
    handle is what it was, and nothing was added to the log of native
    calls. *)
Theorem factories_leave_instance (op : Operation) s :
  allocates op = true ->
  m_eval (run zero LoadLibrary GetProcAddress op s) = m_eval s /\
  native_calls (run zero LoadLibrary GetProcAddress op s) = native_calls s.
Proof.
  destruct op; try discriminate; intros _; simpl.
  - apply new_ValueBuffer_same_instance.
  - apply CreateBuffers_same_instance.
  - apply CreateBuffers_min_same_instance.
Qed.

(** ** The handle over the life of an instance *)

Lemma run_stays_live (op : Operation) s :
  on_instance op = true ->
  (forall how, op <> op_teardown how) ->
  stays_live s (run zero LoadLibrary GetProcAddress op s).
Proof.
  intros Hon Hop. destruct op; try discriminate Hon; simpl.
  - apply same_instance_stays_live, new_ValueBuffer_same_instance.
  - apply same_instance_stays_live, CreateBuffers_same_instance.
  - apply same_instance_stays_live, CreateBuffers_min_same_instance.
  - apply CreateNetwork_stays_live.
  - apply GetInputSchema_stays_live.
  - apply GetOutputSchema_stays_live.
  - apply StartForwardEvaluation_stays_live.
  - apply ForwardPass_stays_live.
  - by destruct (Hop how).
Qed.

Lemma run_disposed (op : Operation) s :
  m_eval s = None ->
  on_instance op = true ->
  m_eval (run zero LoadLibrary GetProcAddress op s) = None /\
  native_calls (run zero LoadLibrary GetProcAddress op s) = native_calls s.
Proof.
  intros Hnull Hon. destruct op; try discriminate Hon; simpl.
  - rewrite <- Hnull. apply new_ValueBuffer_same_instance.
  - rewrite <- Hnull. apply CreateBuffers_same_instance.
  - rewrite <- Hnull. apply CreateBuffers_min_same_instance.
  - unfold CreateNetwork. rewrite (bind_Returns get _ s s s eq_refl). by rewrite Hnull.
  - unfold GetInputSchema. rewrite (bind_Returns get _ s s s eq_refl). by rewrite Hnull.
  - unfold GetOutputSchema. rewrite (bind_Returns get _ s s s eq_refl). by rewrite Hnull.
  - unfold StartForwardEvaluation. rewrite (bind_Returns get _ s s s eq_refl).
    by rewrite Hnull.
  - unfold ForwardPass. rewrite (bind_Returns get _ s s s eq_refl). by rewrite Hnull.
  - by rewrite teardown_disposed.
Qed.

Lemma run_consistent (op : Operation) s :
  on_instance op = true ->
  handle_consistent s ->
  handle_consistent (run zero LoadLibrary GetProcAddress op s).
Proof.
  intros Hon Hs. unfold handle_consistent in *.
  destruct (m_eval s) as [eval |] eqn:Heval.
  - destruct op as [| | | | | | | | | how];
      try (destruct (run_stays_live _ s Hon) as [[eval' ->] ->];
           [discriminate | by rewrite Heval | assumption]).
    simpl. rewrite (teardown_live how s eval Heval). simpl.
    rewrite Destroy_count_snoc. by rewrite Hs.
  - destruct (run_disposed op s Heval Hon) as [-> ->]. assumption.
Qed.

(** X12.  Over any sequence of operations on an instance (buffer
    factories, [CreateNetwork], schema queries, [StartForwardEvaluation],
    [ForwardPass], teardown by [Dispose] or by the collector, in any order
    and however each ends), the handle is null exactly when [Destroy()] has
    been called, and [Destroy()] is called at most once: starting from a
    state in which this holds, it holds after the sequence. *)
Theorem Destroy_exactly_when_disposed (ops : list Operation) s :
  Forall (fun op => on_instance op = true) ops ->
  handle_consistent s ->
  handle_consistent (run_all zero LoadLibrary GetProcAddress ops s).
Proof.
  intros Hops. revert s. induction Hops as [| op rest Hop _ IH]; intros s Hs; simpl.
  - assumption.
  - apply IH. by apply run_consistent.
Qed.

(** ** Methods that translate *)

Lemma map_items_end_managed (items : list ref) s :
  (for_each items map_item s).2 = s /\ ends_managed (for_each items map_item s).1.
Proof.
  induction items as [| r rest [IHstate IHends]]; simpl; [done |].
  destruct (pinnable (heap s) r) eqn:Hr.
  - destruct (map_item_pinnable s r Hr) as (vb & _ & _ & Hrun).
    rewrite (bind_Returns _ _ _ _ _ Hrun).
    unfold bind. destruct (for_each rest map_item s) as [[stds | e | ex |] s1];
      simpl in *; by subst.
  - by rewrite (bind_Throws _ _ _ _ _ (map_item_not_pinnable s r Hr)).
Qed.

(** X13.  [CreateNetwork] and [ForwardPass] never let a C++ exception of
    the engine out: for every state, every engine and all arguments they
    return or throw a managed exception. *)
Theorem translating_methods_end_managed s :
  (forall networkDescription, ends_managed (CreateNetwork networkDescription s).1) /\
  (forall inputs outputs, ends_managed (ForwardPass inputs outputs s).1).
Proof.
  split.
  - intros networkDescription. unfold CreateNetwork.
    rewrite (bind_Returns get _ s s s eq_refl).
    destruct (m_eval s) as [eval |]; [| done].
    unfold try_catch, invoke.
    by destruct (Native.CreateNetwork networkDescription eval) as [eval' [[] | ex]].
  - intros inputs outputs. unfold ForwardPass.
    rewrite (bind_Returns get _ s s s eq_refl).
    destruct (m_eval s) as [eval |]; [| done].
    unfold try_catch_managed, bind at 1.
    destruct (map_items_end_managed inputs s) as [Hstate Hends].
    destruct (for_each inputs map_item s) as [[stdInputs | e | ex |] s1];
      simpl in *; try done.
    subst s1. unfold bind at 1.
    destruct (map_items_end_managed outputs s) as [Hstate' Hends'].
    destruct (for_each outputs map_item s) as [[stdOutputs | e | ex |] s1];
      simpl in *; try done.
    unfold try_catch, invoke_ForwardPass.
    by destruct (Native.ForwardPass stdInputs stdOutputs eval) as [[eval' writes] [[] | ex]].
Qed.

(** ** Construction, again *)

(** X14.  A constructor that starts from a new object and a heap leaves the
    heap as it is; the new object holds an engine exactly when the
    constructor returned; and when it did not return, teardown of the object
    (the collector will run the finalizer) calls nothing and changes
    nothing. *)
Theorem constructor_handle (funcName : string) (h : list (ValueBuffer ElemType))
    (log : list (NativeCall ElemType)) :
  heap (IEvaluateModelExtendedManaged LoadLibrary GetProcAddress funcName
          (fresh_instance h log)).2 = h /\
  ((IEvaluateModelExtendedManaged LoadLibrary GetProcAddress funcName
      (fresh_instance h log)).1 = Returns tt <->
   is_Some (m_eval (IEvaluateModelExtendedManaged LoadLibrary GetProcAddress funcName
                      (fresh_instance h log)).2)) /\
  ((IEvaluateModelExtendedManaged LoadLibrary GetProcAddress funcName
      (fresh_instance h log)).1 <> Returns tt ->
   forall hows,
     teardowns hows
       (IEvaluateModelExtendedManaged LoadLibrary GetProcAddress funcName
          (fresh_instance h log)).2 =
     (Returns tt,
      (IEvaluateModelExtendedManaged LoadLibrary GetProcAddress funcName
         (fresh_instance h log)).2)).
Proof.
  assert (Hfailed : forall (o : Outcome unit) (s' : State),
    o <> Returns tt -> m_eval s' = None -> heap s' = h ->
    heap s' = h /\ (o = Returns tt <-> is_Some (m_eval s')) /\
    (o <> Returns tt -> forall hows, teardowns hows s' = (Returns tt, s'))).
  { intros o s' Ho Hnull Hheap. split; [assumption |]. split.
    - rewrite Hnull. split; [by intros Heq | by intros [eval Heval]].
    - intros _ hows. by apply teardowns_disposed. }
  unfold IEvaluateModelExtendedManaged.
  destruct (LoadLibrary dllname) as [hModule |].
  - unfold try_catch, call_getEvalProc.
    destruct (GetProcAddress hModule funcName) as [[eval | ex] |].
    + simpl. split; [reflexivity |]. split; [| by intros Hne].
      split; [by eexists | reflexivity].
    + by apply Hfailed.
    + by apply Hfailed.
  - by apply Hfailed.
Qed.

(** ** The converters of enumerations *)

(** X19.  [GetDataType] and [GetStorageType] undo the numbering of the
    managed enumerations: each returns the enumerator whose value it was
    given, without touching the state, and returns for no other value. *)
Theorem converters_undo_numbering s :
  (forall kind : DataType.t, GetDataType (DataType.to_int kind) s = (Returns kind, s)) /\
  (forall kind : StorageType.t,
     GetStorageType (StorageType.to_int kind) s = (Returns kind, s)) /\
  (forall (dataType : Z) (kind : DataType.t) s',
     GetDataType dataType s = (Returns kind, s') -> dataType = DataType.to_int kind) /\
  (forall (storageType : Z) (kind : StorageType.t) s',
     GetStorageType storageType s = (Returns kind, s') ->
     storageType = StorageType.to_int kind).
Proof.
  repeat split.
  - by intros [].
  - by intros [].
  - intros dataType kind s'. unfold GetDataType, ret, throw.
    destruct (Z.eqb_spec dataType (DataType.to_int DataType.Float32)) as [-> |];
      [by intros [= <- _] |].
    destruct (Z.eqb_spec dataType (DataType.to_int DataType.Float64)) as [-> |];
      [by intros [= <- _] | discriminate].
  - intros storageType kind s'. unfold GetStorageType, ret, throw.
    destruct (Z.eqb_spec storageType (StorageType.to_int StorageType.Dense)) as [-> |];
      [by intros [= <- _] |].
    destruct (Z.eqb_spec storageType (StorageType.to_int StorageType.Sparse)) as [-> |];
      [by intros [= <- _] |].
    destruct (Z.eqb_spec storageType (StorageType.to_int StorageType.Undetermined))
      as [-> |]; [by intros [= <- _] | discriminate].
Qed.

(** ** From the factory to the engine *)

Lemma blank_full (size : Z) : (0 < size)%Z -> has_empty_array (blank zero size) = false.
Proof.
  intros Hsize. unfold has_empty_array, blank; simpl.
  destruct (Z.to_nat size) as [| n] eqn:Hn; [lia | reflexivity].
Qed.

Lemma new_buffers_described (h news rest : list (ValueBuffer ElemType)) :
  Forall (fun vb => has_empty_array vb = false) news ->
  Forall2 (fun r vb => (h ++ news ++ rest) !! r = Some vb /\ has_empty_array vb = false)
    (seq (length h) (length news)) news.
Proof.
  intros Hfull. revert h. induction Hfull as [| vb news' Hvb _ IH]; intros h; simpl.
  - constructor.
  - constructor.
    + split; [by apply list_lookup_middle | assumption].
    + specialize (IH (h ++ [vb])).
      rewrite length_app, <- app_assoc in IH. simpl in IH.
      by replace (length h + 1) with (S (length h)) in IH by lia.
Qed.

Lemma CreateBuffers_min_positive (this : VariableSchema) s :
  Forall (fun layout => 0 < m_numElements layout)%Z this ->
  CreateBuffers_min zero this s =
    (Returns (seq (length (heap s)) (length this)),
     with_heap s (heap s ++ (blank zero <$> (m_numElements <$> this)))) /\
  Forall (fun vb => has_empty_array vb = false) (blank zero <$> (m_numElements <$> this)).
Proof.
  intros Hpos. split.
  - rewrite CreateBuffers_min_loop, for_each_new_ValueBuffer.
    + by rewrite length_fmap.
    + apply Forall_fmap. eapply Forall_impl; [exact Hpos |]. intros layout. simpl. lia.
  - rewrite <- list_fmap_compose. apply Forall_fmap.
    eapply Forall_impl; [exact Hpos |]. intros layout Hlayout. by apply blank_full.
Qed.

(** X20.  On a live instance, buffers that [CreateBuffers()] makes from an
    input schema and from an output schema whose element counts are all
    positive are accepted by [ForwardPass]: made and passed on in this
    order, they reach the engine, which is called once with the description
    of one buffer per schema entry, of the entry's element count, inputs and
    outputs in schema order; and the call ends as [ForwardPass] ends a call
    of the engine, by returning or by a translated exception. *)
Theorem factory_buffers_reach_engine (inputSchema outputSchema : VariableSchema) s
    (eval : Engine) :
  m_eval s = Some eval ->
  Forall (fun layout => 0 < m_numElements layout)%Z inputSchema ->
  Forall (fun layout => 0 < m_numElements layout)%Z outputSchema ->
  exists s',
    bind (CreateBuffers_min zero inputSchema) (fun inputs =>
      bind (CreateBuffers_min zero outputSchema) (fun outputs =>
        ForwardPass inputs outputs)) s =
      (translated
         (Native.ForwardPass
            (describe <$> (blank zero <$> (m_numElements <$> inputSchema)))
            (describe <$> (blank zero <$> (m_numElements <$> outputSchema))) eval).2,
       s') /\
    native_calls s' =
      native_calls s ++
      [call_ForwardPass
         (describe <$> (blank zero <$> (m_numElements <$> inputSchema)))
         (describe <$> (blank zero <$> (m_numElements <$> outputSchema)))].
Proof.
  intros Hlive Hin Hout.
  destruct (CreateBuffers_min_positive inputSchema s Hin) as [Hins Hins_full].
  set (ins := blank zero <$> (m_numElements <$> inputSchema)) in *.
  set (s1 := with_heap s (heap s ++ ins)) in *.
  destruct (CreateBuffers_min_positive outputSchema s1 Hout) as [Houts Houts_full].
  set (outs := blank zero <$> (m_numElements <$> outputSchema)) in *.
  set (s2 := with_heap s1 (heap s1 ++ outs)) in *.
  rewrite (bind_Returns _ _ _ _ _ Hins).
  rewrite (bind_Returns _ _ _ _ _ Houts).
  eexists. split.
  - apply (ForwardPass_described s2 eval _ _ ins outs); [exact Hlive | |].
    + replace (length inputSchema) with (length ins)
        by (unfold ins; by rewrite !length_fmap).
      pose proof (new_buffers_described (heap s) ins outs Hins_full) as Hdescribed.
      by rewrite app_assoc in Hdescribed.
    + replace (length outputSchema) with (length outs)
        by (unfold outs; by rewrite !length_fmap).
      pose proof (new_buffers_described (heap s1) outs [] Houts_full) as Hdescribed.
      by rewrite app_nil_r in Hdescribed.
  - reflexivity.
Qed.

(** ** The buffer factory and the arithmetic of [int] *)

(** X15.  The value of an [int] lies in [-2^31, 2^31) and differs from the
    integer it holds by a multiple of 2^32; converting twice is converting
    once. *)
Theorem int_of_wraps (z : Z) :
  (- 2 ^ 31 <= int_of z < 2 ^ 31)%Z /\
  (int_of z `mod` 2 ^ 32 = z `mod` 2 ^ 32)%Z /\
  int_of (int_of z) = int_of z.
Proof.
  assert (Hrange : (- 2 ^ 31 <= int_of z < 2 ^ 31)%Z).
  { unfold int_of. pose proof (Z.mod_pos_bound (z + 2 ^ 31) (2 ^ 32)). lia. }
  split; [exact Hrange |]. split.
  - unfold int_of. rewrite Zminus_mod_idemp_l. f_equal. lia.
  - by apply int_of_small.
Qed.

Lemma CreateBuffers_wrapped (this : VariableSchema) (maxLengths : list Z) s :
  length maxLengths = length this ->
  CreateBuffers zero this maxLengths s =
  for_each (wrapped_sizes this maxLengths) (new_ValueBuffer zero) s.
Proof.
  intros Hlen. rewrite CreateBuffers_loop by assumption.
  unfold wrapped_sizes. by rewrite for_each_fmap.
Qed.

Lemma wrapped_sizes_length (this : VariableSchema) (maxLengths : list Z) :
  length maxLengths = length this ->
  length (wrapped_sizes this maxLengths) = length this.
Proof.
  intros Hlen. unfold wrapped_sizes. rewrite length_fmap, length_zip_with. lia.
Qed.

Lemma for_each_first_negative (pre : list Z) (bad : Z) (post : list Z) s :
  Forall (fun size => 0 <= size)%Z pre ->
  (bad < 0)%Z ->
  for_each (pre ++ bad :: post) (new_ValueBuffer zero) s =
    (Throws negative_size, with_heap s (heap s ++ (blank zero <$> pre))).
Proof.
  intros Hpre Hbad. revert s.
  induction Hpre as [| size pre' Hsize _ IH]; intros s; simpl.
  - rewrite (bind_Throws _ _ _ _ _ (new_ValueBuffer_negative zero bad s Hbad)).
    unfold with_heap. rewrite app_nil_r. by destruct s.
  - rewrite (bind_Returns _ _ _ _ _ (new_ValueBuffer_ok zero size s Hsize)).
    rewrite (bind_Throws _ _ _ _ _ (IH _)).
    unfold with_heap; simpl. by rewrite <- app_assoc.
Qed.

Lemma wrapped_sizes_unit (this : VariableSchema) :
  Forall (fun layout => - 2 ^ 31 <= m_numElements layout < 2 ^ 31)%Z this ->
  wrapped_sizes this (replicate (length this) 1%Z) = m_numElements <$> this.
Proof.
  unfold wrapped_sizes.
  induction 1 as [| layout this' Hlayout _ IH]; [done |].
  cbn [length replicate zip_with]. rewrite !fmap_cons. cbn [fst snd].
  rewrite Z.mul_1_r, int_of_small by assumption. f_equal. exact IH.
Qed.

(** X16.  With a maximum length of 1 for every entry,
    [CreateBuffers(maxLengths)] does what [CreateBuffers()] does: the same
    outcome and the same state, also when a count is negative and both
    throw.  (Element counts are [int]s.) *)
Theorem CreateBuffers_unit_lengths (this : VariableSchema) s :
  Forall (fun layout => - 2 ^ 31 <= m_numElements layout < 2 ^ 31)%Z this ->
  CreateBuffers zero this (replicate (length this) 1%Z) s = CreateBuffers_min zero this s.
Proof.
  intros Hint.
  rewrite CreateBuffers_wrapped by apply length_replicate.
  rewrite CreateBuffers_min_loop. by rewrite wrapped_sizes_unit.
Qed.

(** X17.  For lists of equal length, [CreateBuffers(maxLengths)] returns
    whenever no product, taken as an [int], is negative: it allocates one
    buffer per entry, in order, of the size the wrapped product gives, also
    when the product itself does not fit an [int]. *)
Theorem CreateBuffers_wraps (this : VariableSchema) (maxLengths : list Z) s :
  length maxLengths = length this ->
  Forall (fun size => 0 <= size)%Z (wrapped_sizes this maxLengths) ->
  CreateBuffers zero this maxLengths s =
    (Returns (seq (length (heap s)) (length this)),
     with_heap s (heap s ++ (blank zero <$> wrapped_sizes this maxLengths))).
Proof.
  intros Hlen Hsizes.
  rewrite CreateBuffers_wrapped by assumption.
  rewrite for_each_new_ValueBuffer by assumption.
  by rewrite wrapped_sizes_length.
Qed.

(** X18.  For lists of equal length, [CreateBuffers(maxLengths)] throws
    [OverflowException] at the first entry whose product, taken as an
    [int], is negative; the buffers of the entries before it have been
    allocated by then, and nothing else has changed. *)
Theorem CreateBuffers_negative_size (this : VariableSchema) (maxLengths : list Z)
    (pre : list Z) (bad : Z) (post : list Z) s :
  length maxLengths = length this ->
  wrapped_sizes this maxLengths = pre ++ bad :: post ->
  Forall (fun size => 0 <= size)%Z pre ->
  (bad < 0)%Z ->
  CreateBuffers zero this maxLengths s =
    (Throws negative_size, with_heap s (heap s ++ (blank zero <$> pre))).
Proof.
  intros Hlen Hsplit Hpre Hbad.
  rewrite CreateBuffers_wrapped by assumption.
  rewrite Hsplit. by apply for_each_first_negative.
Qed.

End Further.

(** * The further properties at concrete inputs *)

(** The model with one input and one output. *)
Lemma schema_queries_return_witness :
  (exists schema,
     GetInputSchema (live well_behaved) =
       (Returns schema, after_call (live well_behaved) well_behaved call_GetInputSchema) /\
     Forall2 copies [features] schema) /\
  (exists schema,
     GetOutputSchema (live well_behaved) =
       (Returns schema, after_call (live well_behaved) well_behaved call_GetOutputSchema) /\
     Forall2 copies [scores] schema).
Proof.
  destruct (schema_queries_return (live well_behaved) well_behaved eq_refl) as [Hin Hout].
  split.
  - apply (Hin well_behaved [features]); [reflexivity | by repeat constructor].
  - apply (Hout well_behaved [scores]); [reflexivity | by repeat constructor].
Defined.

(** An input schema whose second entry has data type 7. *)
Lemma schema_queries_unknown_data_type_witness :
  GetInputSchema (live confused) =
    (Throws (unknown_DataType 7), after_call (live confused) confused call_GetInputSchema).
Proof.
  apply (proj1 (schema_queries_unknown_data_type (live confused) confused
                  [features] mistyped [scores] eq_refl
                  ltac:(by repeat constructor) eq_refl)).
  reflexivity.
Defined.

(** An engine that throws from its output schema query. *)
Lemma schema_queries_engine_exception_witness :
  GetOutputSchema (live confused) =
    (NativeThrow unknown_node, after_call (live confused) confused call_GetOutputSchema).
Proof.
  apply (proj2 (schema_queries_engine_exception (live confused) confused eq_refl)).
  reflexivity.
Defined.

Lemma c_str_truncates_witness :
  c_str "abc" = "abc" /\ c_str ("abc" +:+ String Ascii.zero "def") = "abc".
Proof. apply (c_str_truncates "abc" "def"). reflexivity. Defined.

Lemma schema_queries_repeat_witness :
  (exists schema,
     GetInputSchema (live well_behaved) =
       (Returns schema, after_call (live well_behaved) well_behaved call_GetInputSchema) /\
     Forall2 repeats [features] schema) /\
  (exists schema,
     GetOutputSchema (live well_behaved) =
       (Returns schema, after_call (live well_behaved) well_behaved call_GetOutputSchema) /\
     Forall2 repeats [scores] schema).
Proof.
  destruct (schema_queries_repeat (live well_behaved) well_behaved eq_refl) as [Hin Hout].
  split.
  - apply (Hin well_behaved [features]); [reflexivity |].
    repeat constructor; simpl; lia.
  - apply (Hout well_behaved [scores]); [reflexivity |].
    repeat constructor; simpl; lia.
Defined.

Lemma StartForwardEvaluation_forwards_witness :
  StartForwardEvaluation ["scores"; "scores"] (live rejecting) =
    (NativeThrow unknown_node,
     after_call (live rejecting) rejecting
       (call_StartForwardEvaluation ["scores"; "scores"])).
Proof.
  exact (StartForwardEvaluation_forwards ["scores"; "scores"] (live rejecting) rejecting
           eq_refl).
Defined.

Lemma CreateNetwork_outcome_witness :
  CreateNetwork "net" (live confused) =
    (Throws (gcnew CNTKBadAllocException "bad allocation" None),
     after_call (live confused) confused (call_CreateNetwork "net")).
Proof. exact (CreateNetwork_outcome "net" (live confused) confused eq_refl). Defined.

(** An input of size 2 and an output of size 3. *)
Lemma ForwardPass_marshals_witness :
  ForwardPass [0] [1] two_full_buffers =
    (Returns tt,
     {| m_eval := Some well_behaved;
        heap := [blank 0%Z 2; store_buffer 1 7%Z (blank 0%Z 3)];
        native_calls :=
          [call_ForwardPass [describe (blank 0%Z 2)] [describe (blank 0%Z 3)]] |}).
Proof.
  exact (ForwardPass_marshals two_full_buffers well_behaved [0] [1]
           [blank 0%Z 2] [blank 0%Z 3] eq_refl
           ltac:(by repeat constructor) ltac:(by repeat constructor)).
Defined.

(** An input of size 2 and a null output. *)
Lemma ForwardPass_first_bad_entry_witness :
  ForwardPass [0] [7] two_full_buffers =
    (Throws (gcnew NullReferenceException "" None), two_full_buffers).
Proof.
  apply (ForwardPass_first_bad_entry two_full_buffers well_behaved [0] [7] [0] 7 []).
  - reflexivity.
  - reflexivity.
  - by repeat constructor.
  - reflexivity.
Defined.

Lemma heap_untouched_witness :
  heap (run 0%Z library_found factory_ok (op_CreateNetwork "net") two_full_buffers) =
    heap two_full_buffers.
Proof.
  apply (heap_untouched 0%Z library_found factory_ok (op_CreateNetwork "net")
           two_full_buffers).
  reflexivity.
Defined.

Lemma factories_leave_instance_witness :
  m_eval (run 0%Z library_found factory_ok (op_CreateBuffers_min [layout_of 2])
            (live well_behaved)) = m_eval (live well_behaved) /\
  native_calls (run 0%Z library_found factory_ok (op_CreateBuffers_min [layout_of 2])
                  (live well_behaved)) = native_calls (live well_behaved).
Proof.
  apply (factories_leave_instance 0%Z library_found factory_ok
           (op_CreateBuffers_min [layout_of 2]) (live well_behaved)).
  reflexivity.
Defined.

(** A network is created, the instance disposed, used again and
    collected. *)
Lemma Destroy_exactly_when_disposed_witness :
  handle_consistent
    (run_all 0%Z library_found factory_ok
       [op_CreateNetwork "net"; op_teardown by_Dispose; op_GetInputSchema;
        op_teardown by_collector]
       (live well_behaved)).
Proof.
  apply (Destroy_exactly_when_disposed 0%Z library_found factory_ok
           [op_CreateNetwork "net"; op_teardown by_Dispose; op_GetInputSchema;
            op_teardown by_collector]
           (live well_behaved)).
  - by repeat constructor.
  - reflexivity.
Defined.

Lemma CreateBuffers_unit_lengths_witness :
  CreateBuffers 0%Z [layout_of 2; layout_of (-3)] [1%Z; 1%Z] (live well_behaved) =
  CreateBuffers_min 0%Z [layout_of 2; layout_of (-3)] (live well_behaved).
Proof.
  apply (CreateBuffers_unit_lengths 0%Z [layout_of 2; layout_of (-3)] (live well_behaved)).
  repeat constructor; simpl; lia.
Defined.

(** 65536 entries of 65537 elements: the product wraps to 65536. *)
Lemma CreateBuffers_wraps_witness :
  CreateBuffers 0%Z [layout_of 65537] [65536%Z] (live well_behaved) =
    (Returns [0], with_heap (live well_behaved) [blank 0%Z 65536]).
Proof.
  apply (CreateBuffers_wraps 0%Z [layout_of 65537] [65536%Z] (live well_behaved)).
  - reflexivity.
  - repeat constructor. vm_compute. discriminate.
Defined.

(** The second product is 2^31, which as an [int] is -2^31. *)
Lemma CreateBuffers_negative_size_witness :
  CreateBuffers 0%Z [layout_of 2; layout_of 32768] [3%Z; 65536%Z] (live well_behaved) =
    (Throws negative_size, with_heap (live well_behaved) [blank 0%Z 6]).
Proof.
  apply (CreateBuffers_negative_size 0%Z [layout_of 2; layout_of 32768] [3%Z; 65536%Z]
           [6%Z] (-2147483648)%Z [] (live well_behaved)).
  - reflexivity.
  - reflexivity.
  - repeat constructor. lia.
  - lia.
Defined.

(** Schemas of one input of four elements and one output of two. *)
Lemma factory_buffers_reach_engine_witness :
  exists s',
    bind (CreateBuffers_min 0%Z [layout_of 4]) (fun inputs =>
      bind (CreateBuffers_min 0%Z [layout_of 2]) (fun outputs =>
        ForwardPass inputs outputs)) (live well_behaved) =
      (Returns tt, s') /\
    native_calls s' =
      [call_ForwardPass [describe (blank 0%Z 4)] [describe (blank 0%Z 2)]].
Proof.
  exact (factory_buffers_reach_engine 0%Z [layout_of 4] [layout_of 2] (live well_behaved)
           well_behaved eq_refl
           ltac:(repeat constructor) ltac:(repeat constructor)).
Defined.

(** A library whose factory throws. *)
Lemma constructor_handle_witness :
  heap (IEvaluateModelExtendedManagedF (ElemType := Z) library_found factory_throws
          (fresh_instance [] [])).2 = [] /\
  ((IEvaluateModelExtendedManagedF (ElemType := Z) library_found factory_throws
      (fresh_instance [] [])).1 = Returns tt <->
   is_Some (m_eval (IEvaluateModelExtendedManagedF (ElemType := Z) library_found
                      factory_throws (fresh_instance [] [])).2)) /\
  ((IEvaluateModelExtendedManagedF (ElemType := Z) library_found factory_throws
      (fresh_instance [] [])).1 <> Returns tt ->
   forall hows,
     teardowns hows
       (IEvaluateModelExtendedManagedF (ElemType := Z) library_found factory_throws
          (fresh_instance [] [])).2 =
     (Returns tt,
      (IEvaluateModelExtendedManagedF (ElemType := Z) library_found factory_throws
         (fresh_instance [] [])).2)).
Proof.
  exact (constructor_handle (ElemType := Z) library_found factory_throws
           "GetEvalExtendedF" [] []).
Defined.

Lemma converters_undo_numbering_witness :
  1%Z = DataType.to_int DataType.Float64 /\
  2%Z = StorageType.to_int StorageType.Sparse.
Proof.
  destruct (converters_undo_numbering (live well_behaved)) as (_ & _ & Hdata & Hstorage).
  split.
  - apply (Hdata 1%Z DataType.Float64 (live well_behaved)). reflexivity.
  - apply (Hstorage 2%Z StorageType.Sparse (live well_behaved)). reflexivity.
Defined.
